(** * Smith-Waterman local alignment (old_smith_waterman.py)

    A shallow embedding of [align], [_create_score_matrix], [_traceback]
    and [_alignment_string], followed by the properties of the score
    matrix, of the chosen end point and of the traceback walk. *)

From Stdlib Require Import ZArith Ascii String Lia Bool.
From stdpp Require Import base list relations strings gmap.

Local Open Scope Z_scope.

(** ** Python values and exceptions *)

(** The exceptions the module can raise. *)
Inductive exn : Type :=
| AssertionError (msg : string)
| ValueError (msg : string)
| IndexError.

(** Outcome of running a piece of the program: a value, a raised
    exception, or [OutOfFuel] when the bounded unrolling of the [while]
    loop was too short ([traceback_never_out_of_fuel] shows that the bound
    used by [_traceback] always suffices). *)
Inductive result (A : Type) : Type :=
| Ok (a : A)
| Raise (e : exn)
| OutOfFuel.

Arguments Ok {A} a.
Arguments Raise {A} e.
Arguments OutOfFuel {A}.

Definition bind {A B} (r : result A) (k : A -> result B) : result B :=
  match r with
  | Ok a => k a
  | Raise e => Raise e
  | OutOfFuel => OutOfFuel
  end.

Notation "'let*' x ':=' e 'in' k" := (bind e (fun x => k))
  (at level 10, x pattern, e at level 100, k at level 200).

(** A sequence is a Python string, seen as the list of its characters. *)
Abbreviation sequence := (list ascii).

(** The score matrix is a list of rows.  The rows are built by a list
    comprehension, so they are distinct objects and a functional update of
    one row models the assignment [score_matrix[i][j] = score]. *)
Abbreviation matrix := (list (list Z)).

(** Python indexing: an index [i] with [-len <= i < 0] counts from the end,
    anything outside [-len <= i < len] raises IndexError. *)
Definition norm_index (n : nat) (i : Z) : option nat :=
  let k := if i <? 0 then i + Z.of_nat n else i in
  if (0 <=? k) && (k <? Z.of_nat n) then Some (Z.to_nat k) else None.

Definition getitem {A} (l : list A) (i : Z) : result A :=
  match norm_index (length l) i with
  | Some k => match l !! k with Some a => Ok a | None => Raise IndexError end
  | None => Raise IndexError
  end.

Definition setitem {A} (l : list A) (i : Z) (v : A) : result (list A) :=
  match norm_index (length l) i with
  | Some k => Ok (<[k:=v]> l)
  | None => Raise IndexError
  end.

(** [range(lo, hi)] for a natural [lo]: empty when [hi <= lo]. *)
Definition range (lo : nat) (hi : Z) : list nat := seq lo (Z.to_nat hi - lo).

(** A [for] loop over a list, threading the loop state. *)
Fixpoint for_each {S} (l : list nat) (body : nat -> S -> result S) (s : S) : result S :=
  match l with
  | [] => Ok s
  | i :: l' => let* s' := body i s in for_each l' body s'
  end.

(** ** Score matrix *)

Definition match_score : Z := 2.
Definition mismatch : Z := -1.
Definition gap : Z := -1.

Definition calc_score (seq1 seq2 : sequence) (m : matrix) (x y : Z) : result Z :=
  let* c1 := getitem seq1 (x - 1) in
  let* c2 := getitem seq2 (y - 1) in
  let similarity := if Ascii.eqb c1 c2 then match_score else mismatch in
  let* r := getitem m (x - 1) in
  let* d := getitem r (y - 1) in
  let diag_score := d + similarity in
  let* r := getitem m (x - 1) in
  let* u := getitem r y in
  let up_score := u + gap in
  let* r := getitem m x in
  let* l := getitem r (y - 1) in
  let left_score := l + gap in
  Ok (Z.max 0 (Z.max diag_score (Z.max up_score left_score))).

(** Loop state of [_create_score_matrix]:
    [score_matrix], [max_score], [max_pos]. *)
Definition fill_state : Type := matrix * Z * option (Z * Z).

(** Body of the inner loop, at row [i] and column [j]. *)
Definition fill_cell (seq1 seq2 : sequence) (i j : nat) (st : fill_state)
  : result fill_state :=
  let '(m, max_score, max_pos) := st in
  let* score := calc_score seq1 seq2 m (Z.of_nat i) (Z.of_nat j) in
  let '(max_score', max_pos') :=
    if score >? max_score then (score, Some (Z.of_nat i, Z.of_nat j))
    else (max_score, max_pos) in
  let* row := getitem m (Z.of_nat i) in
  let* row' := setitem row (Z.of_nat j) score in
  let* m' := setitem m (Z.of_nat i) row' in
  Ok (m', max_score', max_pos').

(** The two nested loops, from the zero matrix. *)
Definition fill_matrix (rows cols : Z) (seq1 seq2 : sequence) : result fill_state :=
  let score_matrix := replicate (Z.to_nat rows) (replicate (Z.to_nat cols) 0) in
  for_each (range 1 rows)
    (fun i st => for_each (range 1 cols) (fill_cell seq1 seq2 i) st)
    (score_matrix, 0, None).

Definition _create_score_matrix (rows cols : Z) (seq1 seq2 : sequence)
  : result (matrix * (Z * Z)) :=
  let* st := fill_matrix rows cols seq1 seq2 in
  let '(score_matrix, _, max_pos) := st in
  match max_pos with
  | None => Raise (AssertionError "the x, y position with the highest score was not found")
  | Some p => Ok (score_matrix, p)
  end.

(** ** Traceback *)

Inductive move : Type := END | DIAG | UP | LEFT.

Definition _next_move (score_matrix : matrix) (x y : Z) : result move :=
  let* r := getitem score_matrix (x - 1) in
  let* diag := getitem r (y - 1) in
  let* r := getitem score_matrix (x - 1) in
  let* up := getitem r y in
  let* r := getitem score_matrix x in
  let* lft := getitem r (y - 1) in
  if (diag >=? up) && (diag >=? lft) then
    Ok (if negb (diag =? 0) then DIAG else END)
  else if (up >? diag) && (up >=? lft) then
    Ok (if negb (up =? 0) then UP else END)
  else if (lft >? diag) && (lft >? up) then
    Ok (if negb (lft =? 0) then LEFT else END)
  else Raise (ValueError "invalid move during traceback").

(** State of the [while] loop: the two output lists and the position. *)
Definition tb_state : Type := list ascii * list ascii * Z * Z.

(** The [while move != END] loop.  The move is computed at the head of
    every iteration; one unit of fuel is spent per executed move. *)
Fixpoint traceback_loop (fuel : nat) (score_matrix : matrix) (seq1 seq2 : sequence)
    (aligned_seq1 aligned_seq2 : list ascii) (x y : Z) : result tb_state :=
  let* mv := _next_move score_matrix x y in
  match mv with
  | END => Ok (aligned_seq1, aligned_seq2, x, y)
  | DIAG =>
      let* c1 := getitem seq1 (x - 1) in
      let* c2 := getitem seq2 (y - 1) in
      match fuel with
      | O => OutOfFuel
      | S fuel' =>
          traceback_loop fuel' score_matrix seq1 seq2
            (aligned_seq1 ++ [c1]) (aligned_seq2 ++ [c2]) (x - 1) (y - 1)
      end
  | UP =>
      let* c1 := getitem seq1 (x - 1) in
      match fuel with
      | O => OutOfFuel
      | S fuel' =>
          traceback_loop fuel' score_matrix seq1 seq2
            (aligned_seq1 ++ [c1]) (aligned_seq2 ++ ["-"%char]) (x - 1) y
      end
  | LEFT =>
      let* c2 := getitem seq2 (y - 1) in
      match fuel with
      | O => OutOfFuel
      | S fuel' =>
          traceback_loop fuel' score_matrix seq1 seq2
            (aligned_seq1 ++ ["-"%char]) (aligned_seq2 ++ [c2]) x (y - 1)
      end
  end.

(** Length of the longest row. *)
Definition max_row_len (m : matrix) : nat := foldr (fun r acc => Nat.max (length r) acc) 0%nat m.

(** Every move lowers [x + y], and a move needs [x - 1] and [y - 1] to be
    valid (possibly negative) indices, so this many moves are never
    exceeded. *)
Definition traceback_fuel (m : matrix) (x y : Z) : nat :=
  Z.to_nat (x + y + Z.of_nat (length m) + Z.of_nat (max_row_len m)).

Definition _traceback (score_matrix : matrix) (start_pos : Z * Z) (seq1 seq2 : sequence)
  : result (list ascii * list ascii) :=
  let '(x, y) := start_pos in
  let* st := traceback_loop (traceback_fuel score_matrix x y) score_matrix seq1 seq2 [] [] x y in
  let '(aligned_seq1, aligned_seq2, x, y) := st in
  let* c1 := getitem seq1 (x - 1) in
  let aligned_seq1 := aligned_seq1 ++ [c1] in
  let* c2 := getitem seq2 (y - 1) in
  let aligned_seq2 := aligned_seq2 ++ [c2] in
  Ok (rev aligned_seq1, rev aligned_seq2).

(** ** align *)

Definition align (seq1 seq2 : sequence) : result (list ascii * list ascii * Z) :=
  let rows := Z.of_nat (length seq1) + 1 in
  let cols := Z.of_nat (length seq2) + 1 in
  let* created := _create_score_matrix rows cols seq1 seq2 in
  let '(score_matrix, start_pos) := created in
  let '(x, y) := start_pos in
  let* r := getitem score_matrix x in
  let* score := getitem r y in
  let* aligned := _traceback score_matrix start_pos seq1 seq2 in
  let '(seq1_aligned, seq2_aligned) := aligned in
  if negb (length seq1_aligned =? length seq2_aligned)%nat then
    Raise (AssertionError "aligned strings are not the same size")
  else Ok (seq1_aligned, seq2_aligned, score).

(** ** Alignment string *)

(** Loop state of [_alignment_string]:
    [alignment_string], [idents], [gaps], [mismatches]. *)
Definition render_state : Type := list ascii * Z * Z * Z.

Definition render_step (st : render_state) (p : ascii * ascii) : render_state :=
  let '(alignment_string, idents, gaps, mismatches) := st in
  let '(base1, base2) := p in
  if Ascii.eqb base1 base2 then
    (alignment_string ++ ["|"%char], idents + 1, gaps, mismatches)
  else if Ascii.eqb "-" base1 || Ascii.eqb "-" base2 then
    (alignment_string ++ [" "%char], idents, gaps + 1, mismatches)
  else
    (alignment_string ++ [":"%char], idents, gaps, mismatches + 1).

Definition _alignment_string (aligned_seq1 aligned_seq2 : list ascii) : render_state :=
  foldl render_step ([], 0, 0, 0) (zip aligned_seq1 aligned_seq2).

(** ** Regression values from the module's own tests and docstrings *)

Definition seq_of (s : string) : sequence := list_ascii_of_string s.

Definition known_matrix : matrix :=
  [[0; 0; 0; 0; 0; 0; 0; 0; 0];
   [0; 2; 1; 2; 1; 2; 1; 0; 2];
   [0; 1; 1; 1; 1; 1; 1; 0; 1];
   [0; 0; 3; 2; 3; 2; 3; 2; 1];
   [0; 2; 2; 5; 4; 5; 4; 3; 4];
   [0; 1; 4; 4; 7; 6; 7; 6; 5];
   [0; 2; 3; 6; 6; 9; 8; 7; 8];
   [0; 1; 4; 5; 8; 8; 11; 10; 9];
   [0; 2; 3; 6; 7; 10; 10; 10; 12]].

(** ** Notions used to state the properties *)

(** The recurrence, as a function of the two sequences. *)

Section Recurrence.

Variables seq1 seq2 : sequence.

(** Score of pairing the symbols at 0-based positions [i] and [j]. *)
Definition similarity (i j : nat) : Z :=
  match seq1 !! i, seq2 !! j with
  | Some c1, Some c2 => if Ascii.eqb c1 c2 then match_score else mismatch
  | _, _ => mismatch
  end.

(** The value the recurrence assigns to cell [(i, j)]: zero on row 0 and
    column 0, the maximum of 0 and the three neighbour scores elsewhere. *)
Fixpoint cell (i : nat) : nat -> Z :=
  match i with
  | O => fun _ => 0
  | S i' =>
      fix row (j : nat) : Z :=
        match j with
        | O => 0
        | S j' =>
            Z.max 0 (Z.max (cell i' j' + similarity i' j')
                       (Z.max (cell i' (S j') + gap) (row j' + gap)))
        end
  end.

End Recurrence.

Arguments cell : simpl never.

(** Reading cell [(a, b)] with in-range natural indices. *)
Definition lookup2 (M : matrix) (a b : nat) : option Z :=
  match M !! a with
  | Some r => r !! b
  | None => None
  end.

(** [(a, b)] is visited before [(i, j)] in the row-major scan. *)
Definition before (a b i j : nat) : Prop := (a < i \/ (a = i /\ b < j))%nat.

(** What is known about [max_score] and [max_pos] when the scan stands at
    [(i, j)]: [max_score] bounds every visited cell, and [max_pos], when
    set, is the first visited cell holding it. *)
Definition max_tracked (seq1 seq2 : sequence) (i j : nat) (ms : Z) (mp : option (Z * Z)) : Prop :=
  0 <= ms
  /\ (forall a b, (1 <= a <= length seq1)%nat -> (1 <= b <= length seq2)%nat -> before a b i j -> cell seq1 seq2 a b <= ms)
  /\ match mp with
     | None => ms = 0
     | Some (x, y) =>
         exists a b, x = Z.of_nat a /\ y = Z.of_nat b
           /\ (1 <= a <= length seq1)%nat /\ (1 <= b <= length seq2)%nat /\ before a b i j
           /\ cell seq1 seq2 a b = ms /\ 0 < ms
           /\ (forall a' b', (1 <= a')%nat -> (1 <= b' <= length seq2)%nat ->
                             before a' b' a b -> cell seq1 seq2 a' b' < ms)
     end.

(** Loop invariant at the head of the iteration for cell [(i, j)]. *)
Definition fill_inv (seq1 seq2 : sequence) (i j : nat) (st : fill_state) : Prop :=
  let '(M, ms, mp) := st in
  length M = S (length seq1)
  /\ Forall (fun r => length r = S (length seq2)) M
  /\ (forall a b, (a <= length seq1)%nat -> (b <= length seq2)%nat -> before a b i j ->
                  lookup2 M a b = Some (cell seq1 seq2 a b))
  /\ (forall a b, (a <= length seq1)%nat -> (b <= length seq2)%nat -> ~ before a b i j ->
                  lookup2 M a b = Some 0)
  /\ max_tracked seq1 seq2 i j ms mp.

(** The choice made by [_next_move] once the three neighbours are read. *)
Definition move_of_neighbours (diag up lft : Z) : result move :=
  if (diag >=? up) && (diag >=? lft) then
    Ok (if negb (diag =? 0) then DIAG else END)
  else if (up >? diag) && (up >=? lft) then
    Ok (if negb (up =? 0) then UP else END)
  else if (lft >? diag) && (lft >? up) then
    Ok (if negb (lft =? 0) then LEFT else END)
  else Raise (ValueError "invalid move during traceback").

(** One executed iteration of the [while] loop takes the position [p] to
    the position [q]. *)
Inductive tb_move (sm : matrix) : Z * Z -> Z * Z -> Prop :=
| tb_diag x y : _next_move sm x y = Ok DIAG -> tb_move sm (x, y) (x - 1, y - 1)
| tb_up x y : _next_move sm x y = Ok UP -> tb_move sm (x, y) (x - 1, y)
| tb_left x y : _next_move sm x y = Ok LEFT -> tb_move sm (x, y) (x, y - 1).

(** Positions at which the loop can stand after some iterations. *)
Definition tb_reach (sm : matrix) : Z * Z -> Z * Z -> Prop := rtc (tb_move sm).

(** The exception raised when no cell is positive. *)
Definition no_max_pos : exn :=
  AssertionError "the x, y position with the highest score was not found".

(** The rule of the specification: a position is an identity only for
    two identical symbols that are not the gap symbol, and a gap as soon
    as either symbol is the gap symbol. *)
Definition render_step_spec (st : render_state) (p : ascii * ascii) : render_state :=
  let '(alignment_string, idents, gaps, mismatches) := st in
  let '(base1, base2) := p in
  if Ascii.eqb base1 base2 && negb (Ascii.eqb base1 "-") then
    (alignment_string ++ ["|"%char], idents + 1, gaps, mismatches)
  else if Ascii.eqb base1 "-" || Ascii.eqb base2 "-" then
    (alignment_string ++ [" "%char], idents, gaps + 1, mismatches)
  else
    (alignment_string ++ [":"%char], idents, gaps, mismatches + 1).

Definition alignment_string_spec (aligned_seq1 aligned_seq2 : list ascii) : render_state :=
  foldl render_step_spec ([], 0, 0, 0) (zip aligned_seq1 aligned_seq2).

(** The mark the code writes for one pair of symbols. *)
Definition mark_of (p : ascii * ascii) : ascii :=
  if Ascii.eqb p.1 p.2 then "|"%char
  else if Ascii.eqb "-" p.1 || Ascii.eqb "-" p.2 then " "%char
  else ":"%char.

Definition occurrences (c : ascii) (l : list ascii) : Z :=
  Z.of_nat (count_occ ascii_dec l c).

(** ** Printing an alignment *)

(** [range(lo, hi, step)] for a positive [step]: lo, lo + step, ... below hi. *)
Definition range_step (lo hi step : nat) : list nat :=
  (fun k => lo + k * step)%nat <$> seq 0 ((hi - lo + (step - 1)) / step).

(** The slice [l[i:j]] for natural [i <= j]; Python clips it to the list. *)
Definition slice {A} (l : list A) (i j : nat) : list A := take (j - i) (drop i l).

(** What [_print_alignment] writes, one value per call of [print].  The
    summary line is kept as the numbers it is formatted from: its two
    percentages are idents / alength and gaps / alength. *)
Inductive line : Type :=
| SummaryLine (idents alength gaps mismatches : Z)
| QueryLine (first : nat) (symbols : list ascii) (last : nat)
| MarkLine (marks : list ascii)
| SbjctLine (first : nat) (symbols : list ascii) (last : nat)
| BlankLine.

(** Outcome of [_print_alignment]: the lines written, or the
    ZeroDivisionError of the two divisions by [alength], which are
    evaluated before anything is written. *)
Inductive print_result : Type :=
| Printed (lines : list line)
| ZeroDivisionError.

(** The four [print] calls of one iteration of the loop over
    [range(0, alength, 60)]. *)
Definition print_block (seq1_aligned seq2_aligned alignment_str : list ascii) (i : nat)
  : list line :=
  let seq1_slice := slice seq1_aligned i (i + 60) in
  let seq2_slice := slice seq2_aligned i (i + 60) in
  [QueryLine (i + 1) seq1_slice (i + length seq1_slice);
   MarkLine (slice alignment_str i (i + 60));
   SbjctLine (i + 1) seq2_slice (i + length seq2_slice);
   BlankLine].

Definition _print_alignment (seq1_aligned seq2_aligned : list ascii) : print_result :=
  let '(alignment_str, idents, gaps, mismatches) :=
    _alignment_string seq1_aligned seq2_aligned in
  let alength := length seq1_aligned in
  if (alength =? 0)%nat then ZeroDivisionError
  else
    Printed (SummaryLine idents (Z.of_nat alength) gaps mismatches
             :: concat (print_block seq1_aligned seq2_aligned alignment_str
                          <$> range_step 0 alength 60)).

(** ** Scores of a batch of read pairs *)

(** Outcome of [get_alignment_scores]: the dictionary of scores, the
    KeyError of a read name missing from [fasta_dict], or whatever [align]
    raised. *)
Inductive batch_result : Type :=
| Scores (score_dict : gmap (string * string) Z)
| KeyError (key : string)
| AlignRaised (e : exn)
| AlignOutOfFuel.

(** The loop over [read_pairs]. *)
Fixpoint score_pairs (fasta_dict : gmap string (list ascii))
    (read_pairs : list (string * string)) (score_dict : gmap (string * string) Z)
  : batch_result :=
  match read_pairs with
  | [] => Scores score_dict
  | (read0, read1) :: read_pairs' =>
      match fasta_dict !! read0 with
      | None => KeyError read0
      | Some seq0 =>
          match fasta_dict !! read1 with
          | None => KeyError read1
          | Some seq1 =>
              match align seq0 seq1 with
              | Ok (_, _, score) =>
                  score_pairs fasta_dict read_pairs' (<[(read0, read1) := score]> score_dict)
              | Raise e => AlignRaised e
              | OutOfFuel => AlignOutOfFuel
              end
          end
      end
  end.

(** [get_alignment_scores], given the dictionary that [_fasta_dict] reads
    from the FASTA file (read name to sequence). *)
Definition get_alignment_scores (read_pairs : list (string * string))
    (fasta_dict : gmap string (list ascii)) : batch_result :=
  score_pairs fasta_dict read_pairs ∅.

(** ** Gapped alignments *)

(** [is_alignment s1 s2 a1 a2]: the rows [a1] and [a2] spell [s1] and [s2]
    column by column, a column holding either a symbol of each, or a
    symbol of one and the gap symbol for the other. *)
Inductive is_alignment : list ascii -> list ascii -> list ascii -> list ascii -> Prop :=
| aln_nil : is_alignment [] [] [] []
| aln_pair c1 c2 s1 s2 a1 a2 :
    is_alignment s1 s2 a1 a2 -> is_alignment (c1 :: s1) (c2 :: s2) (c1 :: a1) (c2 :: a2)
| aln_gap2 c1 s1 s2 a1 a2 :
    is_alignment s1 s2 a1 a2 -> is_alignment (c1 :: s1) s2 (c1 :: a1) ("-"%char :: a2)
| aln_gap1 c2 s1 s2 a1 a2 :
    is_alignment s1 s2 a1 a2 -> is_alignment s1 (c2 :: s2) ("-"%char :: a1) (c2 :: a2).

(** [scored_alignment s1 s2 a1 a2 v]: as [is_alignment], with the sum [v]
    of the column scores: [match_score] or [mismatch] for two symbols,
    [gap] for a symbol facing a gap. *)
Inductive scored_alignment :
  list ascii -> list ascii -> list ascii -> list ascii -> Z -> Prop :=
| sa_nil : scored_alignment [] [] [] [] 0
| sa_pair c1 c2 s1 s2 a1 a2 v :
    scored_alignment s1 s2 a1 a2 v ->
    scored_alignment (c1 :: s1) (c2 :: s2) (c1 :: a1) (c2 :: a2)
      ((if Ascii.eqb c1 c2 then match_score else mismatch) + v)
| sa_gap2 c1 s1 s2 a1 a2 v :
    scored_alignment s1 s2 a1 a2 v ->
    scored_alignment (c1 :: s1) s2 (c1 :: a1) ("-"%char :: a2) (gap + v)
| sa_gap1 c2 s1 s2 a1 a2 v :
    scored_alignment s1 s2 a1 a2 v ->
    scored_alignment s1 (c2 :: s2) ("-"%char :: a1) (c2 :: a2) (gap + v).

(** The symbols carried by a printed line of each of the three kinds. *)
Definition query_of (ln : line) : list ascii :=
  match ln with QueryLine _ symbols _ => symbols | _ => [] end.

Definition sbjct_of (ln : line) : list ascii :=
  match ln with SbjctLine _ symbols _ => symbols | _ => [] end.

Definition marks_of (ln : line) : list ascii :=
  match ln with MarkLine marks => marks | _ => [] end.

(** What a printed line says about positions: it holds between 1 and 60
    symbols, numbered from [first] to [last], starts a block of 60 and
    ends inside a sequence of [n] symbols. *)
Definition line_in_range (n : nat) (ln : line) : Prop :=
  match ln with
  | QueryLine first symbols last | SbjctLine first symbols last =>
      (1 <= length symbols <= 60)%nat /\ (last + 1 = first + length symbols)%nat
      /\ (last <= n)%nat /\ exists k, first = (60 * k + 1)%nat
  | _ => True
  end.

(** Both read names of a pair are in the dictionary, and their sequences
    hold a common symbol. *)
Definition pair_scores (fasta_dict : gmap string (list ascii)) (p : string * string)
    (score : Z) : Prop :=
  exists seq0 seq1 a1 a2,
    fasta_dict !! p.1 = Some seq0 /\ fasta_dict !! p.2 = Some seq1
    /\ align seq0 seq1 = Ok (a1, a2, score).

(** The symbols shared by the two sequences. *)
Definition share_symbol (seq1 seq2 : sequence) : Prop :=
  exists i j c, seq1 !! i = Some c /\ seq2 !! j = Some c.

(** The pair can be scored: both names resolve, to sequences with a
    common symbol. *)
Definition scorable (fasta_dict : gmap string (list ascii)) (p : string * string) : Prop :=
  exists seq0 seq1,
    fasta_dict !! p.1 = Some seq0 /\ fasta_dict !! p.2 = Some seq1
    /\ share_symbol seq0 seq1.

(** ** Regression checks *)

Example test_matrix :
  _create_score_matrix 9 9 (seq_of "AGCACACA") (seq_of "ACACACTA")
  = Ok (known_matrix, (8, 8)).
Proof. vm_compute. reflexivity. Qed.

Example align_TAG_GAG :
  align (seq_of "TAG") (seq_of "GAG") = Ok (seq_of "AG", seq_of "AG", 4).
Proof. vm_compute. reflexivity. Qed.

Example test_weird_case :
  align (seq_of "AAT") (seq_of "AT") = Ok (seq_of "AAT", seq_of "A-T", 4).
Proof. vm_compute. reflexivity. Qed.

(** ** Basic facts about the outcome monad and Python indexing *)

Lemma bind_Ok {A B} (r : result A) (k : A -> result B) (b : B) :
  bind r k = Ok b -> exists a, r = Ok a /\ k a = Ok b.
Proof. destruct r as [a| |]; simpl; intros H; try discriminate. eauto. Qed.

Lemma norm_index_nat (n k : nat) :
  (k < n)%nat -> norm_index n (Z.of_nat k) = Some k.
Proof.
  intros Hk. unfold norm_index.
  destruct (Z.ltb_spec (Z.of_nat k) 0) as [?|_]; [lia|].
  destruct (Z.leb_spec 0 (Z.of_nat k)); [|lia].
  destruct (Z.ltb_spec (Z.of_nat k) (Z.of_nat n)); [|lia].
  simpl. f_equal. lia.
Qed.

Lemma norm_index_Some (n : nat) (i : Z) (k : nat) :
  norm_index n i = Some k ->
  (k < n)%nat /\ - Z.of_nat n <= i < Z.of_nat n
  /\ Z.of_nat k = (if i <? 0 then i + Z.of_nat n else i).
Proof.
  unfold norm_index.
  set (k' := if i <? 0 then i + Z.of_nat n else i).
  destruct ((0 <=? k') && (k' <? Z.of_nat n)) eqn:E; [|discriminate].
  intros [= <-]. apply andb_true_iff in E as [E1 E2].
  apply Z.leb_le in E1. apply Z.ltb_lt in E2.
  subst k'. destruct (Z.ltb_spec i 0); lia.
Qed.

Lemma getitem_nat {A} (l : list A) (k : nat) (a : A) :
  l !! k = Some a -> getitem l (Z.of_nat k) = Ok a.
Proof.
  intros H. unfold getitem.
  rewrite norm_index_nat by (eapply lookup_lt_Some; eauto).
  now rewrite H.
Qed.

Lemma getitem_pred {A} (l : list A) (k : nat) (a : A) :
  (1 <= k)%nat -> l !! (k - 1)%nat = Some a -> getitem l (Z.of_nat k - 1) = Ok a.
Proof.
  intros Hk H. replace (Z.of_nat k - 1) with (Z.of_nat (k - 1)) by lia.
  now apply getitem_nat.
Qed.

Lemma getitem_Ok {A} (l : list A) (i : Z) (a : A) :
  getitem l i = Ok a ->
  exists k, norm_index (length l) i = Some k /\ l !! k = Some a.
Proof.
  unfold getitem. destruct (norm_index (length l) i) as [k|]; [|discriminate].
  destruct (l !! k) as [a'|] eqn:E; [|discriminate].
  intros [= <-]. eauto.
Qed.

Lemma getitem_Ok_range {A} (l : list A) (i : Z) (a : A) :
  getitem l i = Ok a -> - Z.of_nat (length l) <= i < Z.of_nat (length l).
Proof.
  intros H. apply getitem_Ok in H as (k & Hk & _).
  apply norm_index_Some in Hk. lia.
Qed.

Lemma setitem_nat {A} (l : list A) (k : nat) (v : A) :
  (k < length l)%nat -> setitem l (Z.of_nat k) v = Ok (<[k:=v]> l).
Proof. intros H. unfold setitem. now rewrite norm_index_nat. Qed.

Lemma for_each_seq_inv {S} (P : nat -> S -> Prop) (body : nat -> S -> result S) :
  forall (len lo : nat) (s : S),
    P lo s ->
    (forall k s0, (lo <= k < lo + len)%nat -> P k s0 ->
                  exists s1, body k s0 = Ok s1 /\ P (Datatypes.S k) s1) ->
    exists s', for_each (seq lo len) body s = Ok s' /\ P (lo + len)%nat s'.
Proof.
  induction len as [|len IH]; intros lo s H0 Hstep; simpl.
  - exists s. split; [reflexivity|]. now rewrite Nat.add_0_r.
  - destruct (Hstep lo s) as (s1 & Hb & H1); [lia|assumption|].
    rewrite Hb. simpl.
    destruct (IH (Datatypes.S lo) s1) as (s' & Hf & H'); [assumption| |].
    + intros k s0 Hk. apply Hstep. lia.
    + exists s'. split; [assumption|].
      now replace (lo + Datatypes.S len)%nat with (Datatypes.S lo + len)%nat by lia.
Qed.

(** ** The recurrence: first facts *)

Section RecurrenceFacts.

Variables seq1 seq2 : sequence.

Local Abbreviation cell := (cell seq1 seq2).
Local Abbreviation similarity := (similarity seq1 seq2).

Lemma cell_row0 (j : nat) : cell 0 j = 0.
Proof. reflexivity. Qed.

Lemma cell_col0 (i : nat) : cell i 0 = 0.
Proof. destruct i; reflexivity. Qed.

Lemma cell_step (i j : nat) :
  cell (S i) (S j)
  = Z.max 0 (Z.max (cell i j + similarity i j)
               (Z.max (cell i (S j) + gap) (cell (S i) j + gap))).
Proof. reflexivity. Qed.

Lemma cell_nonneg (i j : nat) : 0 <= cell i j.
Proof.
  destruct i as [|i]; [rewrite cell_row0; lia|].
  destruct j as [|j]; [rewrite cell_col0; lia|].
  rewrite cell_step. lia.
Qed.

End RecurrenceFacts.

(** ** The filling loops compute the recurrence *)

Lemma lookup2_update (M : matrix) (row : list Z) (i j a b : nat) (v : Z) :
  M !! i = Some row -> (j < length row)%nat ->
  lookup2 (<[i := <[j := v]> row]> M) a b
  = if ((a =? i) && (b =? j))%nat then Some v else lookup2 M a b.
Proof.
  intros Hrow Hj. unfold lookup2.
  destruct (Nat.eqb_spec a i) as [->|Hai]; cbn [andb].
  - rewrite list_lookup_insert_eq by (eapply lookup_lt_Some; eauto).
    rewrite Hrow.
    destruct (Nat.eqb_spec b j) as [->|Hbj].
    + now rewrite list_lookup_insert_eq.
    + now rewrite list_lookup_insert_ne by congruence.
  - now rewrite list_lookup_insert_ne by congruence.
Qed.

Lemma lookup2_getitem (M : matrix) (a b : nat) (v : Z) :
  lookup2 M a b = Some v ->
  exists r, getitem M (Z.of_nat a) = Ok r /\ getitem r (Z.of_nat b) = Ok v.
Proof.
  unfold lookup2. destruct (M !! a) as [r|] eqn:E; [|discriminate].
  intros H. exists r. split; now apply getitem_nat.
Qed.

Lemma calc_score_lookup (seq1 seq2 : sequence) (M : matrix) (i j : nat) (d u l : Z) :
  (i < length seq1)%nat -> (j < length seq2)%nat ->
  lookup2 M i j = Some d ->
  lookup2 M i (S j) = Some u ->
  lookup2 M (S i) j = Some l ->
  calc_score seq1 seq2 M (Z.of_nat (S i)) (Z.of_nat (S j))
  = Ok (Z.max 0 (Z.max (d + similarity seq1 seq2 i j) (Z.max (u + gap) (l + gap)))).
Proof.
  intros Hi Hj Hd Hu Hl.
  destruct (lookup_lt_is_Some_2 seq1 i Hi) as [c1 Hc1].
  destruct (lookup_lt_is_Some_2 seq2 j Hj) as [c2 Hc2].
  apply lookup2_getitem in Hd as (rd & Hrd & Hd).
  apply lookup2_getitem in Hu as (ru & Hru & Hu).
  apply lookup2_getitem in Hl as (rl & Hrl & Hl).
  unfold calc_score.
  replace (Z.of_nat (S i) - 1) with (Z.of_nat i) by lia.
  replace (Z.of_nat (S j) - 1) with (Z.of_nat j) by lia.
  rewrite (getitem_nat _ _ _ Hc1), (getitem_nat _ _ _ Hc2). simpl.
  rewrite Hrd. simpl. rewrite Hd. simpl.
  rewrite Hru in Hrd. injection Hrd as ->. rewrite Hu. simpl.
  rewrite Hrl. simpl. rewrite Hl. simpl.
  unfold similarity. now rewrite Hc1, Hc2.
Qed.

Section Fill.

Variables seq1 seq2 : sequence.

Let m := length seq1.
Let n := length seq2.

Local Abbreviation cell := (cell seq1 seq2).
Local Abbreviation fill_inv := (fill_inv seq1 seq2).

Lemma fill_inv_lookup (i j : nat) (M : matrix) ms mp (a b : nat) :
  fill_inv i j (M, ms, mp) -> (a <= m)%nat -> (b <= n)%nat ->
  lookup2 M a b = Some (if decide (before a b i j) then cell a b else 0).
Proof.
  intros (_ & _ & H1 & H0 & _) Ha Hb.
  destruct (decide (before a b i j)); auto.
Qed.

Lemma fill_cell_inv (i j : nat) (st : fill_state) :
  (1 <= i <= m)%nat -> (1 <= j <= n)%nat ->
  fill_inv i j st ->
  exists st', fill_cell seq1 seq2 i j st = Ok st' /\ fill_inv i (S j) st'.
Proof.
  intros Hi Hj. destruct st as [[M ms] mp]. intros Hinv.
  pose proof Hinv as (Hlen & Hrows & Hdone & Htodo & Hms & Hle & Hmp).
  destruct i as [|i]; [lia|]. destruct j as [|j]; [lia|].
  assert (Hscore : calc_score seq1 seq2 M (Z.of_nat (S i)) (Z.of_nat (S j))
                   = Ok (cell (S i) (S j))).
  { rewrite cell_step.
    apply calc_score_lookup; try (unfold m, n in *; lia);
      apply Hdone; unfold before; lia. }
  assert (Hrow : exists row, M !! S i = Some row /\ length row = S n).
  { destruct (lookup_lt_is_Some_2 M (S i)) as [row Hrow]; [lia|].
    exists row. split; [assumption|].
    eapply Forall_lookup_1 in Hrows; eauto. }
  destruct Hrow as (row & Hrow & Hrowlen).
  remember (cell (S i) (S j)) as score eqn:Hsc.
  unfold fill_cell. rewrite Hscore. cbn [bind].
  remember (if score >? ms then (score, Some (Z.of_nat (S i), Z.of_nat (S j)))
            else (ms, mp)) as upd eqn:Hupd.
  destruct upd as [ms' mp'].
  rewrite (getitem_nat _ _ _ Hrow). cbn [bind].
  rewrite setitem_nat by lia. cbn [bind].
  rewrite setitem_nat by lia. cbn [bind].
  eexists. split; [reflexivity|].
  assert (Hlk : forall a b, lookup2 (<[S i := <[S j := score]> row]> M) a b
                = if ((a =? S i) && (b =? S j))%nat then Some score else lookup2 M a b).
  { intros a b. apply lookup2_update; [assumption|lia]. }
  unfold fill_inv. repeat split.
  - now rewrite length_insert.
  - apply Forall_insert; [assumption|]. now rewrite length_insert.
  - intros a b Ha Hb Hbef. rewrite Hlk.
    destruct (Nat.eqb_spec a (S i)) as [->|Hai];
      destruct (Nat.eqb_spec b (S j)) as [->|Hbj]; cbn [andb]; try (now rewrite Hsc);
      apply Hdone; try assumption; unfold before in *; lia.
  - intros a b Ha Hb Hbef. rewrite Hlk.
    destruct (Nat.eqb_spec a (S i)) as [->|Hai];
      destruct (Nat.eqb_spec b (S j)) as [->|Hbj]; cbn [andb];
      try (exfalso; apply Hbef; unfold before; lia);
      apply Htodo; try assumption; unfold before in *; lia.
  - destruct (Z.gtb_spec score ms); injection Hupd as -> ->; lia.
  - intros a b Ha Hb Hbef.
    assert (Hcases : before a b (S i) (S j) \/ (a = S i /\ b = S j))
      by (unfold before in *; lia).
    destruct (Z.gtb_spec score ms); injection Hupd as -> ->;
      destruct Hcases as [Hold|[-> ->]]; try (specialize (Hle a b Ha Hb Hold)); subst score; lia.
  - destruct (Z.gtb_spec score ms) as [Hgt|Hngt]; injection Hupd as -> ->.
    + exists (S i), (S j). repeat split; try lia.
      * unfold before; lia.
      * intros a' b' Ha' Hb' Hbef'.
        assert (cell a' b' <= ms); [|lia].
        apply Hle; unfold before in *; lia.
    + destruct mp as [[x y]|]; [|assumption].
      destruct Hmp as (a & b & -> & -> & Ha & Hb & Hbef & Hrest).
      exists a, b. repeat split; try lia; try tauto.
      unfold before in *; lia.
Qed.

Lemma fill_row_inv (i : nat) (st : fill_state) :
  (1 <= i <= m)%nat ->
  fill_inv i 1 st ->
  exists st', for_each (range 1 (Z.of_nat n + 1)) (fill_cell seq1 seq2 i) st = Ok st'
              /\ fill_inv (S i) 1 st'.
Proof.
  intros Hi Hinv. unfold range.
  replace (Z.to_nat (Z.of_nat n + 1) - 1)%nat with n by lia.
  destruct (for_each_seq_inv (fill_inv i) (fill_cell seq1 seq2 i) n 1 st Hinv)
    as (st' & Hrun & Hend).
  { intros k s0 Hk Hs0. apply fill_cell_inv; [lia|lia|assumption]. }
  exists st'. split; [assumption|].
  destruct st' as [[M ms] mp].
  destruct Hend as (Hlen & Hrows & Hdone & Htodo & Hms & Hle & Hmp).
  unfold fill_inv. repeat split; try assumption.
  - intros a b Ha Hb Hbef.
    destruct (decide (before a b i (1 + n))) as [Hold|Hnew]; [now apply Hdone|].
    assert (a = S i /\ b = 0%nat) as [-> ->] by (unfold before in *; lia).
    rewrite cell_col0. now apply Htodo.
  - intros a b Ha Hb Hbef. apply Htodo; try assumption. unfold before in *; lia.
  - intros a b Ha Hb Hbef. apply Hle; try assumption. unfold before in *; lia.
  - destruct mp as [[x y]|]; [|assumption].
    destruct Hmp as (a & b & -> & -> & Ha & Hb & Hbef & Hrest).
    exists a, b. repeat split; try lia; try tauto.
    unfold before in *; lia.
Qed.

Lemma fill_inv_init :
  fill_inv 1 1 (replicate (S m) (replicate (S n) 0), 0, None).
Proof.
  unfold fill_inv. repeat split.
  - apply length_replicate.
  - apply Forall_replicate. apply length_replicate.
  - intros a b Ha Hb Hbef. unfold lookup2.
    rewrite lookup_replicate_2 by lia. rewrite lookup_replicate_2 by lia.
    f_equal. unfold before in Hbef.
    destruct a as [|a]; [reflexivity|]. destruct b as [|b]; [now rewrite cell_col0|lia].
  - intros a b Ha Hb _. unfold lookup2.
    rewrite lookup_replicate_2 by lia. now rewrite lookup_replicate_2 by lia.
  - lia.
  - intros a b Ha Hb Hbef. unfold before in Hbef. lia.
Qed.

(** The loops never raise, and leave the recurrence's values in every
    cell of an [(m+1) x (n+1)] matrix. *)
Lemma fill_matrix_inv :
  exists st, fill_matrix (Z.of_nat m + 1) (Z.of_nat n + 1) seq1 seq2 = Ok st
             /\ fill_inv (S m) 1 st.
Proof.
  unfold fill_matrix, range at 1.
  replace (Z.to_nat (Z.of_nat m + 1)) with (S m) by lia.
  replace (Z.to_nat (Z.of_nat n + 1)) with (S n) by lia.
  replace (S m - 1)%nat with m by lia.
  apply (for_each_seq_inv (fun i => fill_inv i 1)
           (fun i st => for_each (range 1 (Z.of_nat n + 1)) (fill_cell seq1 seq2 i) st)
           m 1).
  - apply fill_inv_init.
  - intros k s0 Hk Hs0. apply fill_row_inv; [lia|assumption].
Qed.

End Fill.

(** ** What [_create_score_matrix] returns *)

Section Created.

Variables seq1 seq2 : sequence.

Let m := length seq1.
Let n := length seq2.
Let rows := Z.of_nat (length seq1) + 1.
Let cols := Z.of_nat (length seq2) + 1.

Local Abbreviation cell := (cell seq1 seq2).

(** The shape and contents of the filled matrix, and the final values of
    [max_score] and [max_pos]. *)
Lemma fill_matrix_spec :
  exists M ms mp,
    fill_matrix rows cols seq1 seq2 = Ok (M, ms, mp)
    /\ length M = S m
    /\ Forall (fun r => length r = S n) M
    /\ (forall a b v, lookup2 M a b = Some v <-> (a <= m)%nat /\ (b <= n)%nat /\ v = cell a b)
    /\ max_tracked seq1 seq2 (S m) 1 ms mp.
Proof.
  destruct (fill_matrix_inv seq1 seq2) as ([[M ms] mp] & Hrun & Hinv).
  destruct Hinv as (Hlen & Hrows & Hdone & _ & Hmax).
  exists M, ms, mp. split; [assumption|]. split; [assumption|].
  split; [assumption|]. split; [|assumption].
  intros a b v. split.
  - intros H.
    assert (Ha : (a <= m)%nat).
    { unfold lookup2 in H. destruct (M !! a) as [r|] eqn:E; [|discriminate].
      apply lookup_lt_Some in E. fold m in Hlen. lia. }
    assert (Hb : (b <= n)%nat).
    { unfold lookup2 in H. destruct (M !! a) as [r|] eqn:E; [|discriminate].
      eapply Forall_lookup_1 in Hrows; eauto.
      apply lookup_lt_Some in H. fold n in Hrows. lia. }
    rewrite (Hdone a b Ha Hb) in H by (unfold before; lia).
    split; [assumption|]. split; [assumption|]. congruence.
  - intros (Ha & Hb & ->). apply Hdone; try assumption. unfold before; lia.
Qed.

(** The assertion on [max_pos] decides between the two outcomes. *)
Lemma create_score_matrix_cases :
  exists M ms mp,
    fill_matrix rows cols seq1 seq2 = Ok (M, ms, mp)
    /\ _create_score_matrix rows cols seq1 seq2
       = match mp with
         | None => Raise (AssertionError "the x, y position with the highest score was not found")
         | Some p => Ok (M, p)
         end.
Proof.
  destruct fill_matrix_spec as (M & ms & mp & Hrun & _).
  exists M, ms, mp. split; [assumption|].
  unfold _create_score_matrix. now rewrite Hrun.
Qed.

Lemma create_score_matrix_Ok (M : matrix) (pos : Z * Z) :
  _create_score_matrix rows cols seq1 seq2 = Ok (M, pos) ->
  exists ms, fill_matrix rows cols seq1 seq2 = Ok (M, ms, Some pos).
Proof.
  destruct create_score_matrix_cases as (M' & ms & mp & Hrun & Hc).
  rewrite Hc. destruct mp as [p|]; [|discriminate].
  intros [= -> ->]. eauto.
Qed.

(** Everything later proofs need to know about a returned matrix and end
    point, in terms of the recurrence. *)
Lemma create_score_matrix_spec (M : matrix) (pos : Z * Z) :
  _create_score_matrix rows cols seq1 seq2 = Ok (M, pos) ->
  length M = S m
  /\ Forall (fun r => length r = S n) M
  /\ (forall a b v, lookup2 M a b = Some v <-> (a <= m)%nat /\ (b <= n)%nat /\ v = cell a b)
  /\ exists x y, pos = (Z.of_nat x, Z.of_nat y)
       /\ (1 <= x <= m)%nat /\ (1 <= y <= n)%nat
       /\ 0 < cell x y
       /\ (forall a b, (a <= m)%nat -> (b <= n)%nat -> cell a b <= cell x y)
       /\ (forall a b, (b <= n)%nat -> before a b x y -> cell a b < cell x y).
Proof.
  intros Hc. apply create_score_matrix_Ok in Hc as (ms & Hrun).
  destruct fill_matrix_spec as (M' & ms' & mp' & Hrun' & Hlen & Hrows & Hlk & Hmax).
  rewrite Hrun in Hrun'. injection Hrun' as <- <- <-.
  split; [assumption|]. split; [assumption|]. split; [assumption|].
  destruct Hmax as (Hms & Hle & Hmp). destruct pos as [x y].
  destruct Hmp as (a & b & -> & -> & Ha & Hb & Hbef & Hval & Hpos & Hfirst).
  exists a, b. rewrite Hval.
  split; [reflexivity|]. split; [lia|]. split; [lia|]. split; [lia|]. split.
  - intros a' b' Ha' Hb'.
    destruct a' as [|a']; [rewrite cell_row0; lia|].
    destruct b' as [|b']; [rewrite cell_col0; lia|].
    apply Hle; unfold before; lia.
  - intros a' b' Hb' Hbef'.
    destruct a' as [|a']; [rewrite cell_row0; lia|].
    destruct b' as [|b']; [rewrite cell_col0; lia|].
    apply Hfirst; try lia. assumption.
Qed.

End Created.

(** ** Moves of the traceback, on any matrix *)

Lemma getitem_Raise {A} (l : list A) (i : Z) (e : exn) :
  getitem l i = Raise e -> e = IndexError.
Proof.
  unfold getitem. destruct (norm_index (length l) i) as [k|].
  - destruct (l !! k); [discriminate|]. now intros [= <-].
  - now intros [= <-].
Qed.

Lemma getitem_fuel {A} (l : list A) (i : Z) : getitem l i <> OutOfFuel.
Proof.
  unfold getitem. destruct (norm_index (length l) i) as [k|]; [|discriminate].
  destruct (l !! k); discriminate.
Qed.

(** The three tests leave no case out: the last branch is dead code. *)
Lemma move_of_neighbours_Ok (diag up lft : Z) :
  exists mv, move_of_neighbours diag up lft = Ok mv
    /\ match mv with
       | DIAG => diag <> 0 /\ up <= diag /\ lft <= diag
       | UP => up <> 0 /\ diag < up /\ lft <= up
       | LEFT => lft <> 0 /\ diag < lft /\ up < lft
       | END => (diag = 0 /\ up <= 0 /\ lft <= 0)
                \/ (up = 0 /\ diag < 0 /\ lft <= 0)
                \/ (lft = 0 /\ diag < 0 /\ up < 0)
       end.
Proof.
  unfold move_of_neighbours.
  destruct (Z.geb_spec diag up), (Z.geb_spec diag lft),
    (Z.gtb_spec up diag), (Z.geb_spec up lft),
    (Z.gtb_spec lft diag), (Z.gtb_spec lft up); cbn [andb]; try lia.
  all: match goal with
       | |- context [negb (?v =? 0)] => destruct (Z.eqb_spec v 0)
       end; cbn [negb]; eexists; (split; [reflexivity|cbn; lia]).
Qed.

Lemma next_move_reads (sm : matrix) (x y : Z) (rd rl : list Z) (diag up lft : Z) :
  getitem sm (x - 1) = Ok rd -> getitem rd (y - 1) = Ok diag ->
  getitem rd y = Ok up ->
  getitem sm x = Ok rl -> getitem rl (y - 1) = Ok lft ->
  _next_move sm x y = move_of_neighbours diag up lft.
Proof.
  intros H1 H2 H3 H4 H5. unfold _next_move.
  rewrite H1. cbn [bind]. rewrite H2. cbn [bind]. rewrite H3. cbn [bind].
  rewrite H4. cbn [bind]. rewrite H5. reflexivity.
Qed.

Lemma next_move_Ok (sm : matrix) (x y : Z) (mv : move) :
  _next_move sm x y = Ok mv ->
  exists rd rl diag up lft,
    getitem sm (x - 1) = Ok rd /\ getitem rd (y - 1) = Ok diag
    /\ getitem rd y = Ok up
    /\ getitem sm x = Ok rl /\ getitem rl (y - 1) = Ok lft
    /\ move_of_neighbours diag up lft = Ok mv.
Proof.
  unfold _next_move. intros H.
  apply bind_Ok in H as (rd & H1 & H). apply bind_Ok in H as (diag & H2 & H).
  apply bind_Ok in H as (rd' & H1' & H). apply bind_Ok in H as (up & H3 & H).
  apply bind_Ok in H as (rl & H4 & H). apply bind_Ok in H as (lft & H5 & H).
  rewrite H1 in H1'. injection H1' as <-.
  exists rd, rl, diag, up, lft. repeat (split; [assumption|]). exact H.
Qed.

(** [_next_move] can fail on an index, never on the comparison. *)
Lemma next_move_Raise (sm : matrix) (x y : Z) (e : exn) :
  _next_move sm x y = Raise e -> e = IndexError.
Proof.
  unfold _next_move.
  destruct (getitem sm (x - 1)) as [rd|e1|] eqn:H1; cbn [bind];
    [|intros [= <-]; eapply getitem_Raise; eauto|discriminate].
  destruct (getitem rd (y - 1)) as [diag|e2|] eqn:H2; cbn [bind];
    [|intros [= <-]; eapply getitem_Raise; eauto|discriminate].
  destruct (getitem rd y) as [up|e3|] eqn:H3; cbn [bind];
    [|intros [= <-]; eapply getitem_Raise; eauto|discriminate].
  destruct (getitem sm x) as [rl|e4|] eqn:H4; cbn [bind];
    [|intros [= <-]; eapply getitem_Raise; eauto|discriminate].
  destruct (getitem rl (y - 1)) as [lft|e5|] eqn:H5; cbn [bind];
    [|intros [= <-]; eapply getitem_Raise; eauto|discriminate].
  fold (move_of_neighbours diag up lft).
  destruct (move_of_neighbours_Ok diag up lft) as (mv & -> & _). discriminate.
Qed.

Lemma next_move_fuel (sm : matrix) (x y : Z) : _next_move sm x y <> OutOfFuel.
Proof.
  unfold _next_move.
  destruct (getitem sm (x - 1)) as [rd|e1|] eqn:H1; cbn [bind];
    [|discriminate|now apply getitem_fuel in H1].
  destruct (getitem rd (y - 1)) as [diag|e2|] eqn:H2; cbn [bind];
    [|discriminate|now apply getitem_fuel in H2].
  destruct (getitem rd y) as [up|e3|] eqn:H3; cbn [bind];
    [|discriminate|now apply getitem_fuel in H3].
  destruct (getitem sm x) as [rl|e4|] eqn:H4; cbn [bind];
    [|discriminate|now apply getitem_fuel in H4].
  destruct (getitem rl (y - 1)) as [lft|e5|] eqn:H5; cbn [bind];
    [|discriminate|now apply getitem_fuel in H5].
  fold (move_of_neighbours diag up lft).
  destruct (move_of_neighbours_Ok diag up lft) as (mv & -> & _). discriminate.
Qed.

Lemma tb_move_decreases (sm : matrix) (p q : Z * Z) :
  tb_move sm p q -> q.1 + q.2 < p.1 + p.2 /\ q.1 <= p.1 /\ q.2 <= p.2.
Proof. intros H. destruct H; simpl; lia. Qed.

(** ** The traceback loop, on any matrix *)

Lemma traceback_loop_eq (fuel : nat) (sm : matrix) (seq1 seq2 : sequence)
    (a1 a2 : list ascii) (x y : Z) :
  traceback_loop fuel sm seq1 seq2 a1 a2 x y
  = let* mv := _next_move sm x y in
    match mv with
    | END => Ok (a1, a2, x, y)
    | DIAG =>
        let* c1 := getitem seq1 (x - 1) in
        let* c2 := getitem seq2 (y - 1) in
        match fuel with
        | O => OutOfFuel
        | S fuel' =>
            traceback_loop fuel' sm seq1 seq2 (a1 ++ [c1]) (a2 ++ [c2]) (x - 1) (y - 1)
        end
    | UP =>
        let* c1 := getitem seq1 (x - 1) in
        match fuel with
        | O => OutOfFuel
        | S fuel' =>
            traceback_loop fuel' sm seq1 seq2 (a1 ++ [c1]) (a2 ++ ["-"%char]) (x - 1) y
        end
    | LEFT =>
        let* c2 := getitem seq2 (y - 1) in
        match fuel with
        | O => OutOfFuel
        | S fuel' =>
            traceback_loop fuel' sm seq1 seq2 (a1 ++ ["-"%char]) (a2 ++ [c2]) x (y - 1)
        end
    end.
Proof. destruct fuel; reflexivity. Qed.

(** The ways in which the loop can come to return. *)
Lemma traceback_loop_Ok (fuel : nat) (sm : matrix) (seq1 seq2 : sequence)
    (a1 a2 : list ascii) (x y : Z) (r : tb_state) :
  traceback_loop fuel sm seq1 seq2 a1 a2 x y = Ok r ->
  (_next_move sm x y = Ok END /\ r = (a1, a2, x, y))
  \/ exists fuel' b1 b2 x' y',
       fuel = S fuel' /\ tb_move sm (x, y) (x', y')
       /\ length b1 = 1%nat /\ length b2 = 1%nat
       /\ traceback_loop fuel' sm seq1 seq2 (a1 ++ b1) (a2 ++ b2) x' y' = Ok r.
Proof.
  rewrite traceback_loop_eq. intros H.
  apply bind_Ok in H as (mv & Hmv & H). destruct mv.
  - left. split; [assumption|]. now injection H as <-.
  - right. apply bind_Ok in H as (c1 & _ & H). apply bind_Ok in H as (c2 & _ & H).
    destruct fuel as [|fuel']; [discriminate|].
    exists fuel', [c1], [c2], (x - 1), (y - 1).
    repeat (split; [first [reflexivity|now constructor]|]). exact H.
  - right. apply bind_Ok in H as (c1 & _ & H).
    destruct fuel as [|fuel']; [discriminate|].
    exists fuel', [c1], ["-"%char], (x - 1), y.
    repeat (split; [first [reflexivity|now constructor]|]). exact H.
  - right. apply bind_Ok in H as (c2 & _ & H).
    destruct fuel as [|fuel']; [discriminate|].
    exists fuel', ["-"%char], [c2], x, (y - 1).
    repeat (split; [first [reflexivity|now constructor]|]). exact H.
Qed.

(** The two output lists grow together. *)
Lemma traceback_loop_lengths (sm : matrix) (seq1 seq2 : sequence) :
  forall (fuel : nat) (a1 a2 : list ascii) (x y : Z) (b1 b2 : list ascii) (xe ye : Z),
    traceback_loop fuel sm seq1 seq2 a1 a2 x y = Ok (b1, b2, xe, ye) ->
    length a1 = length a2 -> length b1 = length b2.
Proof.
  induction fuel as [|fuel IH]; intros a1 a2 x y b1 b2 xe ye H Hlen;
    apply traceback_loop_Ok in H
      as [[_ [= -> -> _ _]]|(fuel' & c1 & c2 & x' & y' & Hf & _ & H1 & H2 & H)];
    try assumption; try discriminate.
  injection Hf as <-. eapply IH; [eassumption|].
  rewrite !length_app. lia.
Qed.

Lemma max_row_len_ge (sm : matrix) (k : nat) (r : list Z) :
  sm !! k = Some r -> (length r <= max_row_len sm)%nat.
Proof.
  revert k. induction sm as [|r0 sm IH]; intros k H; [discriminate|].
  destruct k as [|k]; simpl in *.
  - injection H as ->. lia.
  - apply IH in H. lia.
Qed.

(** A position from which a move is read is not too far below zero. *)
Lemma next_move_Ok_bound (sm : matrix) (x y : Z) (mv : move) :
  _next_move sm x y = Ok mv ->
  2 <= x + y + Z.of_nat (length sm) + Z.of_nat (max_row_len sm).
Proof.
  intros H. apply next_move_Ok in H as (rd & rl & diag & up & lft & H1 & H2 & _).
  apply getitem_Ok_range in H2.
  pose proof (getitem_Ok_range _ _ _ H1) as Hx.
  apply getitem_Ok in H1 as (k & _ & Hk). apply max_row_len_ge in Hk. lia.
Qed.

(** The fuel handed to the loop by [_traceback] is never used up. *)
Lemma traceback_loop_enough_fuel (sm : matrix) (seq1 seq2 : sequence) :
  forall (fuel : nat) (a1 a2 : list ascii) (x y : Z),
    x + y + Z.of_nat (length sm) + Z.of_nat (max_row_len sm) <= Z.of_nat fuel + 1 ->
    traceback_loop fuel sm seq1 seq2 a1 a2 x y <> OutOfFuel.
Proof.
  induction fuel as [|fuel IH]; intros a1 a2 x y Hfuel; rewrite traceback_loop_eq.
  all: destruct (_next_move sm x y) as [mv|e|] eqn:Hmv; cbn [bind];
    [|discriminate|now apply next_move_fuel in Hmv].
  all: pose proof (next_move_Ok_bound _ _ _ _ Hmv) as Hb.
  all: destruct mv; try discriminate; try lia.
  all: repeat match goal with
         | |- context [getitem ?l ?i] =>
             let E := fresh "E" in
             destruct (getitem l i) as [?|?|] eqn:E; cbn [bind];
             [|discriminate|now apply getitem_fuel in E]
         end.
  all: apply IH; lia.
Qed.

Lemma traceback_never_out_of_fuel (sm : matrix) (start_pos : Z * Z) (seq1 seq2 : sequence) :
  _traceback sm start_pos seq1 seq2 <> OutOfFuel.
Proof.
  unfold _traceback. destruct start_pos as [x y].
  destruct (traceback_loop _ sm seq1 seq2 [] [] x y) as [[[[a1 a2] xe] ye]|e|] eqn:H;
    cbn [bind]; [|discriminate|].
  - destruct (getitem seq1 (xe - 1)) as [c1|e1|] eqn:H1; cbn [bind];
      [|discriminate|now apply getitem_fuel in H1].
    destruct (getitem seq2 (ye - 1)) as [c2|e2|] eqn:H2; cbn [bind];
      [discriminate|discriminate|now apply getitem_fuel in H2].
  - apply traceback_loop_enough_fuel in H; [contradiction|].
    unfold traceback_fuel. lia.
Qed.

(** [_traceback] returns two lists of the same length, whatever the matrix. *)
Lemma traceback_lengths (sm : matrix) (start_pos : Z * Z) (seq1 seq2 : sequence)
    (s1 s2 : list ascii) :
  _traceback sm start_pos seq1 seq2 = Ok (s1, s2) -> length s1 = length s2.
Proof.
  unfold _traceback. destruct start_pos as [x y]. intros H.
  apply bind_Ok in H as ([[[a1 a2] xe] ye] & Hloop & H).
  apply bind_Ok in H as (c1 & _ & H). apply bind_Ok in H as (c2 & _ & H).
  injection H as <- <-.
  apply traceback_loop_lengths in Hloop; [|reflexivity].
  rewrite !length_rev, !length_app. simpl. lia.
Qed.

(** ** The traceback on a matrix that holds the recurrence *)

Section Walk.

Variables seq1 seq2 : sequence.
Variable M : matrix.

Let m := length seq1.
Let n := length seq2.

Local Abbreviation cell := (cell seq1 seq2).

Hypothesis M_cells :
  forall a b v, lookup2 M a b = Some v <-> (a <= m)%nat /\ (b <= n)%nat /\ v = cell a b.

Lemma created_getitem (a b : nat) :
  (a <= m)%nat -> (b <= n)%nat ->
  exists r, getitem M (Z.of_nat a) = Ok r /\ getitem r (Z.of_nat b) = Ok (cell a b).
Proof. intros Ha Hb. apply lookup2_getitem. now apply M_cells. Qed.

Lemma next_move_created (x y : nat) :
  (1 <= x <= m)%nat -> (1 <= y <= n)%nat ->
  _next_move M (Z.of_nat x) (Z.of_nat y)
  = move_of_neighbours (cell (x - 1) (y - 1)) (cell (x - 1) y) (cell x (y - 1)).
Proof.
  intros Hx Hy.
  destruct (created_getitem (x - 1) (y - 1)) as (rd & Hrd & Hd); [lia|lia|].
  destruct (created_getitem (x - 1) y) as (ru & Hru & Hu); [lia|lia|].
  destruct (created_getitem x (y - 1)) as (rl & Hrl & Hl); [lia|lia|].
  rewrite Hru in Hrd. injection Hrd as <-.
  replace (Z.of_nat (x - 1)) with (Z.of_nat x - 1) in * by lia.
  replace (Z.of_nat (y - 1)) with (Z.of_nat y - 1) in * by lia.
  eapply next_move_reads; eassumption.
Qed.

(** A move is only made towards a non-zero neighbour, and the cells of
    row 0 and column 0 are zero: the walk stays at coordinates >= 1. *)
Lemma next_move_created_Ok (x y : nat) :
  (1 <= x <= m)%nat -> (1 <= y <= n)%nat ->
  exists mv, _next_move M (Z.of_nat x) (Z.of_nat y) = Ok mv
    /\ match mv with
       | DIAG => (2 <= x)%nat /\ (2 <= y)%nat
       | UP => (2 <= x)%nat
       | LEFT => (2 <= y)%nat
       | END => True
       end.
Proof.
  intros Hx Hy. rewrite next_move_created by assumption.
  destruct (move_of_neighbours_Ok (cell (x - 1) (y - 1)) (cell (x - 1) y) (cell x (y - 1)))
    as (mv & Hmv & Hcond).
  exists mv. split; [assumption|].
  destruct mv; [exact I| | |].
  - destruct Hcond as (Hnz & _). split.
    + destruct (decide (x = 1%nat)) as [->|]; [|lia]. now rewrite cell_row0 in Hnz.
    + destruct (decide (y = 1%nat)) as [->|]; [|lia]. now rewrite cell_col0 in Hnz.
  - destruct Hcond as (Hnz & _).
    destruct (decide (x = 1%nat)) as [->|]; [|lia]. now rewrite cell_row0 in Hnz.
  - destruct Hcond as (Hnz & _).
    destruct (decide (y = 1%nat)) as [->|]; [|lia]. now rewrite cell_col0 in Hnz.
Qed.

Lemma tb_move_created (x y : nat) (q : Z * Z) :
  (1 <= x <= m)%nat -> (1 <= y <= n)%nat ->
  tb_move M (Z.of_nat x, Z.of_nat y) q ->
  exists x' y', q = (Z.of_nat x', Z.of_nat y')
    /\ (1 <= x' <= x)%nat /\ (1 <= y' <= y)%nat /\ (x' + y' < x + y)%nat.
Proof.
  intros Hx Hy Hmove.
  destruct (next_move_created_Ok x y Hx Hy) as (mv & Hmv & Hcond).
  inversion Hmove as [x0 y0 H|x0 y0 H|x0 y0 H]; subst;
    rewrite Hmv in H; injection H as ->.
  - exists (x - 1)%nat, (y - 1)%nat. split; [f_equal; lia|lia].
  - exists (x - 1)%nat, y. split; [f_equal; lia|lia].
  - exists x, (y - 1)%nat. split; [f_equal; lia|lia].
Qed.

Lemma tb_reach_created (x0 y0 : nat) (q : Z * Z) :
  (1 <= x0 <= m)%nat -> (1 <= y0 <= n)%nat ->
  tb_reach M (Z.of_nat x0, Z.of_nat y0) q ->
  exists x y, q = (Z.of_nat x, Z.of_nat y) /\ (1 <= x <= x0)%nat /\ (1 <= y <= y0)%nat.
Proof.
  intros Hx Hy. unfold tb_reach. revert q. apply rtc_ind_r.
  - exists x0, y0. split; [reflexivity|lia].
  - intros p q _ Hmove IH. destruct IH as (x & y & -> & Hx' & Hy').
    apply tb_move_created in Hmove as (x' & y' & -> & ? & ? & ?); [|lia|lia].
    exists x', y'. split; [reflexivity|lia].
Qed.

(** From a position inside the matrix the walk makes some number [k] of
    moves, at most [x + y - 2], and then reads END at a position that is
    still inside the matrix; with [k] units of fuel or more the loop
    returns there. *)
Lemma traceback_loop_created :
  forall (s x y : nat),
    (x + y <= s)%nat -> (1 <= x <= m)%nat -> (1 <= y <= n)%nat ->
    exists (k xe ye : nat),
      nsteps (tb_move M) k (Z.of_nat x, Z.of_nat y) (Z.of_nat xe, Z.of_nat ye)
      /\ (k + 2 <= x + y)%nat
      /\ _next_move M (Z.of_nat xe) (Z.of_nat ye) = Ok END
      /\ (1 <= xe <= x)%nat /\ (1 <= ye <= y)%nat
      /\ forall (fuel : nat) (a1 a2 : list ascii),
           (k <= fuel)%nat ->
           exists b1 b2,
             traceback_loop fuel M seq1 seq2 a1 a2 (Z.of_nat x) (Z.of_nat y)
             = Ok (b1, b2, Z.of_nat xe, Z.of_nat ye).
Proof.
  induction s as [|s IH]; intros x y Hs Hx Hy; [lia|].
  destruct (next_move_created_Ok x y Hx Hy) as (mv & Hmv & Hcond).
  destruct mv.
  - exists 0%nat, x, y. split; [constructor|]. split; [lia|].
    split; [assumption|]. split; [lia|]. split; [lia|].
    intros fuel a1 a2 _. exists a1, a2.
    rewrite traceback_loop_eq, Hmv. reflexivity.
  - destruct Hcond as [Hx2 Hy2].
    destruct (lookup_lt_is_Some_2 seq1 (x - 1)) as [c1 Hc1]; [fold m; lia|].
    destruct (lookup_lt_is_Some_2 seq2 (y - 1)) as [c2 Hc2]; [fold n; lia|].
    destruct (IH (x - 1)%nat (y - 1)%nat)
      as (k & xe & ye & Hsteps & Hk & Hend & Hxe & Hye & Hrun); try lia.
    replace (Z.of_nat (x - 1)) with (Z.of_nat x - 1) in * by lia.
    replace (Z.of_nat (y - 1)) with (Z.of_nat y - 1) in * by lia.
    exists (S k), xe, ye. split.
    { eapply nsteps_l; [|eassumption]. now constructor. }
    split; [lia|]. split; [assumption|]. split; [lia|]. split; [lia|].
    intros fuel a1 a2 Hfuel. destruct fuel as [|fuel]; [lia|].
    rewrite traceback_loop_eq, Hmv. cbn [bind].
    rewrite (getitem_pred _ _ _ (proj1 Hx) Hc1). cbn [bind].
    rewrite (getitem_pred _ _ _ (proj1 Hy) Hc2). cbn [bind].
    apply Hrun. lia.
  - destruct (lookup_lt_is_Some_2 seq1 (x - 1)) as [c1 Hc1]; [fold m; lia|].
    destruct (IH (x - 1)%nat y)
      as (k & xe & ye & Hsteps & Hk & Hend & Hxe & Hye & Hrun); try lia.
    replace (Z.of_nat (x - 1)) with (Z.of_nat x - 1) in * by lia.
    exists (S k), xe, ye. split.
    { eapply nsteps_l; [|eassumption]. now constructor. }
    split; [lia|]. split; [assumption|]. split; [lia|]. split; [lia|].
    intros fuel a1 a2 Hfuel. destruct fuel as [|fuel]; [lia|].
    rewrite traceback_loop_eq, Hmv. cbn [bind].
    rewrite (getitem_pred _ _ _ (proj1 Hx) Hc1). cbn [bind].
    apply Hrun. lia.
  - destruct (lookup_lt_is_Some_2 seq2 (y - 1)) as [c2 Hc2]; [fold n; lia|].
    destruct (IH x (y - 1)%nat)
      as (k & xe & ye & Hsteps & Hk & Hend & Hxe & Hye & Hrun); try lia.
    replace (Z.of_nat (y - 1)) with (Z.of_nat y - 1) in * by lia.
    exists (S k), xe, ye. split.
    { eapply nsteps_l; [|eassumption]. now constructor. }
    split; [lia|]. split; [assumption|]. split; [lia|]. split; [lia|].
    intros fuel a1 a2 Hfuel. destruct fuel as [|fuel]; [lia|].
    rewrite traceback_loop_eq, Hmv. cbn [bind].
    rewrite (getitem_pred _ _ _ (proj1 Hy) Hc2). cbn [bind].
    apply Hrun. lia.
Qed.

(** [_traceback] returns: the loop ends inside the matrix and the final
    pair is read at in-range positions. *)
Lemma traceback_created (x0 y0 : nat) :
  (1 <= x0 <= m)%nat -> (1 <= y0 <= n)%nat ->
  exists (xe ye : nat) (a1 a2 : list ascii) (c1 c2 : ascii),
    traceback_loop (traceback_fuel M (Z.of_nat x0) (Z.of_nat y0)) M seq1 seq2 [] []
      (Z.of_nat x0) (Z.of_nat y0) = Ok (a1, a2, Z.of_nat xe, Z.of_nat ye)
    /\ (1 <= xe <= x0)%nat /\ (1 <= ye <= y0)%nat
    /\ seq1 !! (xe - 1)%nat = Some c1 /\ seq2 !! (ye - 1)%nat = Some c2
    /\ _traceback M (Z.of_nat x0, Z.of_nat y0) seq1 seq2
       = Ok (rev (a1 ++ [c1]), rev (a2 ++ [c2])).
Proof.
  intros Hx Hy.
  destruct (traceback_loop_created (x0 + y0) x0 y0)
    as (k & xe & ye & _ & Hk & _ & Hxe & Hye & Hrun); try lia.
  destruct (Hrun (traceback_fuel M (Z.of_nat x0) (Z.of_nat y0)) [] []) as (a1 & a2 & Hloop).
  { unfold traceback_fuel. lia. }
  destruct (lookup_lt_is_Some_2 seq1 (xe - 1)) as [c1 Hc1]; [fold m; lia|].
  destruct (lookup_lt_is_Some_2 seq2 (ye - 1)) as [c2 Hc2]; [fold n; lia|].
  exists xe, ye, a1, a2, c1, c2.
  repeat (split; [first [assumption|lia]|]).
  unfold _traceback. rewrite Hloop. cbn [bind].
  rewrite (getitem_pred _ _ _ (proj1 Hxe) Hc1). cbn [bind].
  now rewrite (getitem_pred _ _ _ (proj1 Hye) Hc2).
Qed.

End Walk.

(** ** align, end to end *)

Section Align.

Variables seq1 seq2 : sequence.

Let rows := Z.of_nat (length seq1) + 1.
Let cols := Z.of_nat (length seq2) + 1.

Local Abbreviation cell := (cell seq1 seq2).

(** Once [_create_score_matrix] has returned, nothing in [align] raises:
    the score is the value of the end point and the traceback returns. *)
Lemma align_created (M : matrix) (pos : Z * Z) :
  _create_score_matrix rows cols seq1 seq2 = Ok (M, pos) ->
  exists (x0 y0 : nat) (s1 s2 : list ascii),
    pos = (Z.of_nat x0, Z.of_nat y0)
    /\ _traceback M pos seq1 seq2 = Ok (s1, s2)
    /\ align seq1 seq2 = Ok (s1, s2, cell x0 y0).
Proof.
  intros Hc.
  destruct (create_score_matrix_spec seq1 seq2 M pos Hc)
    as (_ & _ & Hlk & x0 & y0 & -> & Hx & Hy & _).
  destruct (traceback_created seq1 seq2 M Hlk x0 y0 Hx Hy)
    as (xe & ye & a1 & a2 & c1 & c2 & _ & _ & _ & _ & _ & Htb).
  destruct (created_getitem seq1 seq2 M Hlk x0 y0) as (r & Hr & Hv); [lia|lia|].
  exists x0, y0, (rev (a1 ++ [c1])), (rev (a2 ++ [c2])).
  split; [reflexivity|]. split; [assumption|].
  unfold align. unfold rows, cols in Hc. cbv zeta. rewrite Hc. cbn [bind].
  rewrite Hr. cbn [bind]. rewrite Hv. cbn [bind]. rewrite Htb. cbn [bind].
  rewrite (traceback_lengths _ _ _ _ _ _ Htb), Nat.eqb_refl. reflexivity.
Qed.

(** [align] either fails the assertion on [max_pos] or returns. *)
Lemma align_cases :
  exists M ms mp,
    fill_matrix rows cols seq1 seq2 = Ok (M, ms, mp)
    /\ match mp with
       | None => align seq1 seq2 = Raise no_max_pos
       | Some pos =>
           exists (x0 y0 : nat) (s1 s2 : list ascii),
             pos = (Z.of_nat x0, Z.of_nat y0)
             /\ _create_score_matrix rows cols seq1 seq2 = Ok (M, pos)
             /\ _traceback M pos seq1 seq2 = Ok (s1, s2)
             /\ align seq1 seq2 = Ok (s1, s2, cell x0 y0)
       end.
Proof.
  destruct (create_score_matrix_cases seq1 seq2) as (M & ms & mp & Hrun & Hc).
  exists M, ms, mp. split; [assumption|].
  destruct mp as [pos|].
  - destruct (align_created M pos Hc) as (x0 & y0 & s1 & s2 & ? & ? & ?).
    exists x0, y0, s1, s2. auto.
  - unfold align. unfold rows, cols in Hc. cbv zeta. now rewrite Hc.
Qed.

End Align.

(** ** The score matrix (C1, C2) *)

(** The endpoint is replaced exactly when the new score is strictly
    greater than the running maximum. *)
Lemma fill_cell_update (seq1 seq2 : sequence) (i j : nat) (M M' : matrix)
    (ms ms' : Z) (mp mp' : option (Z * Z)) :
  fill_cell seq1 seq2 i j (M, ms, mp) = Ok (M', ms', mp') ->
  exists score,
    calc_score seq1 seq2 M (Z.of_nat i) (Z.of_nat j) = Ok score
    /\ ((ms < score /\ ms' = score /\ mp' = Some (Z.of_nat i, Z.of_nat j))
        \/ (score <= ms /\ ms' = ms /\ mp' = mp)).
Proof.
  unfold fill_cell. intros H. apply bind_Ok in H as (score & Hs & H).
  exists score. split; [assumption|].
  destruct (Z.gtb_spec score ms) as [Hgt|Hle];
    apply bind_Ok in H as (row & _ & H); apply bind_Ok in H as (row' & _ & H);
    apply bind_Ok in H as (M1 & _ & H); injection H as <- <- <-.
  - left. auto.
  - right. auto.
Qed.

(** C1: for sequences of lengths m and n, the matrix returned by
    [_create_score_matrix] has m+1 rows of n+1 cells, row 0 and column 0
    hold 0, and for i in 1..m and j in 1..n
    cell(i,j) = max(0, cell(i-1,j-1) + similarity, cell(i-1,j) + gap,
    cell(i,j-1) + gap) with similarity 2 when seq1[i-1] == seq2[j-1] and -1
    otherwise, and gap -1. *)
Theorem create_score_matrix_recurrence (seq1 seq2 : sequence) (M : matrix) (pos : Z * Z) :
  _create_score_matrix (Z.of_nat (length seq1) + 1) (Z.of_nat (length seq2) + 1) seq1 seq2
  = Ok (M, pos) ->
  length M = S (length seq1)
  /\ Forall (fun r => length r = S (length seq2)) M
  /\ (forall j, (j <= length seq2)%nat -> lookup2 M 0 j = Some 0)
  /\ (forall i, (i <= length seq1)%nat -> lookup2 M i 0 = Some 0)
  /\ (forall i j, (1 <= i <= length seq1)%nat -> (1 <= j <= length seq2)%nat ->
        exists c1 c2 d u l,
          seq1 !! (i - 1)%nat = Some c1 /\ seq2 !! (j - 1)%nat = Some c2
          /\ lookup2 M (i - 1) (j - 1) = Some d
          /\ lookup2 M (i - 1) j = Some u
          /\ lookup2 M i (j - 1) = Some l
          /\ lookup2 M i j
             = Some (Z.max 0 (Z.max (d + (if Ascii.eqb c1 c2 then 2 else -1))
                                (Z.max (u + -1) (l + -1))))).
Proof.
  intros Hc.
  destruct (create_score_matrix_spec seq1 seq2 M pos Hc) as (Hlen & Hrows & Hlk & _).
  split; [assumption|]. split; [assumption|]. split; [|split].
  - intros j Hj. apply Hlk. split; [lia|]. split; [assumption|reflexivity].
  - intros i Hi. apply Hlk. split; [assumption|]. split; [lia|].
    now rewrite cell_col0.
  - intros i j Hi Hj.
    destruct (lookup_lt_is_Some_2 seq1 (i - 1)) as [c1 Hc1]; [lia|].
    destruct (lookup_lt_is_Some_2 seq2 (j - 1)) as [c2 Hc2]; [lia|].
    exists c1, c2, (cell seq1 seq2 (i - 1) (j - 1)), (cell seq1 seq2 (i - 1) j),
      (cell seq1 seq2 i (j - 1)).
    split; [assumption|]. split; [assumption|].
    split; [apply Hlk; repeat split; lia|].
    split; [apply Hlk; repeat split; lia|].
    split; [apply Hlk; repeat split; lia|].
    apply Hlk. split; [lia|]. split; [lia|].
    destruct i as [|i]; [lia|]. destruct j as [|j]; [lia|].
    rewrite cell_step. unfold similarity, gap, match_score, mismatch.
    replace (S i - 1)%nat with i in * by lia.
    replace (S j - 1)%nat with j in * by lia.
    now rewrite Hc1, Hc2.
Qed.

Lemma create_score_matrix_recurrence_witness :
  let M := [[0; 0; 0; 0]; [0; 0; 0; 0]; [0; 0; 2; 1]; [0; 2; 1; 4]] in
  _create_score_matrix 4 4 (seq_of "TAG") (seq_of "GAG") = Ok (M, (3, 3))
  /\ length M = 4%nat
  /\ lookup2 M 0 3 = Some 0
  /\ lookup2 M 3 3 = Some (Z.max 0 (Z.max (2 + 2) (Z.max (1 + -1) (1 + -1)))).
Proof.
  intros M.
  assert (Hc : _create_score_matrix (Z.of_nat (length (seq_of "TAG")) + 1)
                 (Z.of_nat (length (seq_of "GAG")) + 1) (seq_of "TAG") (seq_of "GAG")
               = Ok (M, (3, 3))) by (vm_compute; reflexivity).
  destruct (create_score_matrix_recurrence _ _ _ _ Hc) as (Hlen & _ & Hrow0 & _ & Hrec).
  split; [exact Hc|]. split; [exact Hlen|]. split; [apply Hrow0; simpl; lia|].
  destruct (Hrec 3%nat 3%nat) as (c1 & c2 & d & u & l & H1 & H2 & Hd & Hu & Hl & Hv);
    [simpl; lia|simpl; lia|].
  injection H1 as <-. injection H2 as <-.
  injection Hd as <-. injection Hu as <-. injection Hl as <-.
  exact Hv.
Defined.

(** C2: when the matrix holds a positive value, the end point returned by
    [_create_score_matrix] is the first cell, in row-major order, whose
    value is the maximum of the matrix: no cell is greater and every
    earlier cell is strictly smaller.  The recorded end point changes only
    on a strictly greater score. *)
Theorem endpoint_is_first_maximum (seq1 seq2 : sequence) (M : matrix) (ms : Z)
    (mp : option (Z * Z)) :
  fill_matrix (Z.of_nat (length seq1) + 1) (Z.of_nat (length seq2) + 1) seq1 seq2
  = Ok (M, ms, mp) ->
  (exists a b v, lookup2 M a b = Some v /\ 0 < v) ->
  (exists (x y : nat) (best : Z),
     _create_score_matrix (Z.of_nat (length seq1) + 1) (Z.of_nat (length seq2) + 1) seq1 seq2
     = Ok (M, (Z.of_nat x, Z.of_nat y))
     /\ (1 <= x <= length seq1)%nat /\ (1 <= y <= length seq2)%nat
     /\ lookup2 M x y = Some best
     /\ (forall a b v, lookup2 M a b = Some v -> v <= best)
     /\ (forall a b v, lookup2 M a b = Some v -> before a b x y -> v < best))
  /\ (forall i j M0 M1 ms0 ms1 mp0 mp1,
        fill_cell seq1 seq2 i j (M0, ms0, mp0) = Ok (M1, ms1, mp1) ->
        (ms0 < ms1 /\ mp1 = Some (Z.of_nat i, Z.of_nat j)) \/ (ms1 = ms0 /\ mp1 = mp0)).
Proof.
  intros Hrun (a0 & b0 & v0 & Hv0 & Hpos). split.
  - destruct (fill_matrix_spec seq1 seq2) as (M' & ms' & mp' & Hrun' & _ & _ & Hlk & Hmax).
    rewrite Hrun in Hrun'. injection Hrun' as <- <- <-.
    assert (Hsome : exists pos, mp = Some pos).
    { destruct mp as [pos|]; [eauto|exfalso].
      destruct Hmax as (_ & Hle & ->).
      apply Hlk in Hv0 as (Ha & Hb & ->).
      destruct a0 as [|a0]; [rewrite cell_row0 in Hpos; lia|].
      destruct b0 as [|b0]; [rewrite cell_col0 in Hpos; lia|].
      specialize (Hle (S a0) (S b0)). unfold before in Hle. lia. }
    destruct Hsome as (pos & ->).
    assert (Hc : _create_score_matrix (Z.of_nat (length seq1) + 1)
                   (Z.of_nat (length seq2) + 1) seq1 seq2 = Ok (M, pos)).
    { unfold _create_score_matrix. now rewrite Hrun. }
    destruct (create_score_matrix_spec seq1 seq2 M pos Hc)
      as (_ & _ & _ & x & y & -> & Hx & Hy & _ & Hmaxi & Hfirst).
    exists x, y, (cell seq1 seq2 x y).
    split; [assumption|]. split; [assumption|]. split; [assumption|].
    split; [apply Hlk; repeat split; lia|]. split.
    + intros a b v Hv. apply Hlk in Hv as (Ha & Hb & ->). now apply Hmaxi.
    + intros a b v Hv Hbef. apply Hlk in Hv as (Ha & Hb & ->). now apply Hfirst.
  - intros i j M0 M1 ms0 ms1 mp0 mp1 Hcell.
    apply fill_cell_update in Hcell as (score & _ & [(? & -> & ->)|(? & -> & ->)]); auto.
Qed.

(** Two cells hold the maximum 2; the first one scanned is kept. *)
Example endpoint_tie_break :
  fill_matrix 2 3 (seq_of "A") (seq_of "AA") = Ok ([[0; 0; 0]; [0; 2; 2]], 2, Some (1, 1)).
Proof. vm_compute. reflexivity. Qed.

Lemma endpoint_is_first_maximum_witness :
  let M := [[0; 0; 0]; [0; 2; 2]] in
  fill_matrix 2 3 (seq_of "A") (seq_of "AA") = Ok (M, 2, Some (1, 1))
  /\ exists (x y : nat) (best : Z),
       _create_score_matrix 2 3 (seq_of "A") (seq_of "AA") = Ok (M, (Z.of_nat x, Z.of_nat y))
       /\ (1 <= x <= 1)%nat /\ (1 <= y <= 2)%nat
       /\ lookup2 M x y = Some best
       /\ (forall a b v, lookup2 M a b = Some v -> v <= best)
       /\ (forall a b v, lookup2 M a b = Some v -> before a b x y -> v < best).
Proof.
  intros M.
  assert (Hrun : fill_matrix (Z.of_nat (length (seq_of "A")) + 1)
                   (Z.of_nat (length (seq_of "AA")) + 1) (seq_of "A") (seq_of "AA")
                 = Ok (M, 2, Some (1, 1))) by (vm_compute; reflexivity).
  split; [exact Hrun|].
  apply (endpoint_is_first_maximum _ _ _ _ _ Hrun).
  exists 1%nat, 2%nat, 2. split; [reflexivity|lia].
Defined.

(** ** The end of the traceback (C3) *)

(** On a matrix that [_create_score_matrix] never builds, END can be read
    at the position (0, 0); the final pair is appended all the same, read
    from the end of both sequences by negative indexing. *)
Lemma traceback_appends_at_zero_coordinate :
  traceback_loop (traceback_fuel [[0; 0]; [0; 0]] 0 0) [[0; 0]; [0; 0]]
    (seq_of "A") (seq_of "C") [] [] 0 0
  = Ok ([], [], 0, 0)
  /\ _traceback [[0; 0]; [0; 0]] (0, 0) (seq_of "A") (seq_of "C")
     = Ok (seq_of "A", seq_of "C")
  /\ _traceback [[0; 0]; [0; 0]] (0, 0) (seq_of "A") (seq_of "C") <> Ok (rev [], rev []).
Proof.
  split; [vm_compute; reflexivity|]. split; [vm_compute; reflexivity|].
  vm_compute. discriminate.
Qed.

(** C3, as the code has it: [_traceback] appends the final pair
    (seq1[x-1], seq2[y-1]) whenever the loop ends, without a test on x and
    y.  On a matrix and end point returned by [_create_score_matrix] every
    position of the walk, the one where END is read included, has
    1 <= x <= len(seq1) and 1 <= y <= len(seq2), so that pair is read at
    in-range, non-negative indices. *)
Theorem traceback_final_pair_in_range (seq1 seq2 : sequence) (M : matrix) (pos : Z * Z) :
  _create_score_matrix (Z.of_nat (length seq1) + 1) (Z.of_nat (length seq2) + 1) seq1 seq2
  = Ok (M, pos) ->
  (forall q, tb_reach M pos q ->
             1 <= q.1 <= Z.of_nat (length seq1) /\ 1 <= q.2 <= Z.of_nat (length seq2))
  /\ exists (x y : nat) (a1 a2 : list ascii) (c1 c2 : ascii),
       traceback_loop (traceback_fuel M pos.1 pos.2) M seq1 seq2 [] [] pos.1 pos.2
       = Ok (a1, a2, Z.of_nat x, Z.of_nat y)
       /\ (1 <= x <= length seq1)%nat /\ (1 <= y <= length seq2)%nat
       /\ seq1 !! (x - 1)%nat = Some c1 /\ seq2 !! (y - 1)%nat = Some c2
       /\ _traceback M pos seq1 seq2 = Ok (rev (a1 ++ [c1]), rev (a2 ++ [c2])).
Proof.
  intros Hc.
  destruct (create_score_matrix_spec seq1 seq2 M pos Hc)
    as (_ & _ & Hlk & x0 & y0 & -> & Hx & Hy & _).
  split.
  - intros q Hq.
    destruct (tb_reach_created seq1 seq2 M Hlk x0 y0 q Hx Hy Hq) as (x & y & -> & ? & ?).
    simpl. lia.
  - destruct (traceback_created seq1 seq2 M Hlk x0 y0 Hx Hy)
      as (xe & ye & a1 & a2 & c1 & c2 & Hloop & Hxe & Hye & Hc1 & Hc2 & Htb).
    exists xe, ye, a1, a2, c1, c2. simpl.
    repeat (split; [first [assumption|lia]|]). assumption.
Qed.

Lemma traceback_final_pair_in_range_witness :
  let M := [[0; 0; 0; 0]; [0; 0; 0; 0]; [0; 0; 2; 1]; [0; 2; 1; 4]] in
  _create_score_matrix 4 4 (seq_of "TAG") (seq_of "GAG") = Ok (M, (3, 3))
  /\ exists (x y : nat) (a1 a2 : list ascii) (c1 c2 : ascii),
       traceback_loop (traceback_fuel M 3 3) M (seq_of "TAG") (seq_of "GAG") [] [] 3 3
       = Ok (a1, a2, Z.of_nat x, Z.of_nat y)
       /\ (1 <= x <= 3)%nat /\ (1 <= y <= 3)%nat
       /\ seq_of "TAG" !! (x - 1)%nat = Some c1 /\ seq_of "GAG" !! (y - 1)%nat = Some c2
       /\ _traceback M (3, 3) (seq_of "TAG") (seq_of "GAG")
          = Ok (rev (a1 ++ [c1]), rev (a2 ++ [c2])).
Proof.
  intros M.
  assert (Hc : _create_score_matrix (Z.of_nat (length (seq_of "TAG")) + 1)
                 (Z.of_nat (length (seq_of "GAG")) + 1) (seq_of "TAG") (seq_of "GAG")
               = Ok (M, (3, 3))) by (vm_compute; reflexivity).
  split; [exact Hc|].
  exact (proj2 (traceback_final_pair_in_range _ _ _ _ Hc)).
Defined.

(** ** No alignment (C4) *)

(** With an empty sequence the loops do not run, [max_pos] stays None and
    the assertion of [_create_score_matrix] fails. *)
Lemma align_empty_fails_assertion :
  align [] (seq_of "x")
  = Raise (AssertionError "the x, y position with the highest score was not found")
  /\ align (seq_of "x") []
     = Raise (AssertionError "the x, y position with the highest score was not found").
Proof. split; vm_compute; reflexivity. Qed.

(** C4, as the code has it: when the filled matrix is all zero, which is
    the case of align("", "x") and align("x", ""), [align] raises the
    AssertionError of [_create_score_matrix]. *)
Theorem align_all_zero_fails_assertion (seq1 seq2 : sequence) (M : matrix) (ms : Z)
    (mp : option (Z * Z)) :
  fill_matrix (Z.of_nat (length seq1) + 1) (Z.of_nat (length seq2) + 1) seq1 seq2
  = Ok (M, ms, mp) ->
  (forall a b v, lookup2 M a b = Some v -> v = 0) ->
  align seq1 seq2
  = Raise (AssertionError "the x, y position with the highest score was not found").
Proof.
  intros Hrun Hzero.
  destruct (align_cases seq1 seq2) as (M' & ms' & mp' & Hrun' & Hal).
  rewrite Hrun in Hrun'. injection Hrun' as <- <- <-.
  destruct mp as [pos|]; [exfalso|exact Hal].
  destruct Hal as (x0 & y0 & s1 & s2 & -> & Hc & _).
  destruct (create_score_matrix_spec seq1 seq2 M _ Hc)
    as (_ & _ & Hlk & x & y & [= Hx0 Hy0] & Hx & Hy & Hpos & _).
  specialize (Hzero x y (cell seq1 seq2 x y)).
  rewrite Hzero in Hpos; [lia|]. apply Hlk. repeat split; lia.
Qed.

Lemma align_all_zero_fails_assertion_witness :
  fill_matrix 1 2 [] (seq_of "x") = Ok ([[0; 0]], 0, None)
  /\ align [] (seq_of "x")
     = Raise (AssertionError "the x, y position with the highest score was not found").
Proof.
  assert (Hrun : fill_matrix (Z.of_nat (length (@nil ascii)) + 1)
                   (Z.of_nat (length (seq_of "x")) + 1) [] (seq_of "x")
                 = Ok ([[0; 0]], 0, None)) by (vm_compute; reflexivity).
  split; [exact Hrun|].
  apply (align_all_zero_fails_assertion _ _ _ _ _ Hrun).
  intros a b v.
  destruct a as [|a]; [|discriminate].
  destruct b as [|[|b]]; cbv; congruence.
Defined.

(** An empty sequence leaves the matrix without any cell to fill. *)
Lemma align_empty_sequence (seq1 seq2 : sequence) :
  seq1 = [] \/ seq2 = [] ->
  align seq1 seq2
  = Raise (AssertionError "the x, y position with the highest score was not found").
Proof.
  intros Hempty.
  destruct (align_cases seq1 seq2) as (M & ms & mp & Hrun & Hal).
  destruct mp as [pos|]; [exfalso|exact Hal].
  destruct Hal as (x0 & y0 & s1 & s2 & -> & Hc & _).
  destruct (create_score_matrix_spec seq1 seq2 M _ Hc)
    as (_ & _ & _ & x & y & _ & Hx & Hy & _).
  destruct Hempty as [-> | ->]; simpl in *; lia.
Qed.

(** ** Score and lengths (C5, C6) *)

(** [max_pos] stays None only over a matrix without positive cell. *)
Lemma fill_matrix_no_max_pos (seq1 seq2 : sequence) (M : matrix) (ms : Z) :
  fill_matrix (Z.of_nat (length seq1) + 1) (Z.of_nat (length seq2) + 1) seq1 seq2
  = Ok (M, ms, None) ->
  forall a b v, lookup2 M a b = Some v -> v = 0.
Proof.
  intros Hrun a b v Hv.
  destruct (fill_matrix_spec seq1 seq2) as (M' & ms' & mp' & Hrun' & _ & _ & Hlk & Hmax).
  rewrite Hrun in Hrun'. injection Hrun' as <- <- <-.
  destruct Hmax as (_ & Hle & ->).
  apply Hlk in Hv as (Ha & Hb & ->).
  destruct a as [|a]; [apply cell_row0|].
  destruct b as [|b]; [apply cell_col0|].
  pose proof (cell_nonneg seq1 seq2 (S a) (S b)).
  specialize (Hle (S a) (S b)). unfold before in Hle. lia.
Qed.

(** C5: every cell of the constructed matrix is >= 0, and the score
    returned by [align] is a value of the matrix that no cell exceeds.
    [align] does return whenever some cell is positive. *)
Theorem score_is_matrix_maximum (seq1 seq2 : sequence) :
  exists M ms mp,
    fill_matrix (Z.of_nat (length seq1) + 1) (Z.of_nat (length seq2) + 1) seq1 seq2
    = Ok (M, ms, mp)
    /\ (forall a b v, lookup2 M a b = Some v -> 0 <= v)
    /\ (forall s1 s2 score,
          align seq1 seq2 = Ok (s1, s2, score) ->
          (exists a b, lookup2 M a b = Some score)
          /\ (forall a b v, lookup2 M a b = Some v -> v <= score))
    /\ ((exists a b v, lookup2 M a b = Some v /\ 0 < v) ->
        exists s1 s2 score, align seq1 seq2 = Ok (s1, s2, score)).
Proof.
  destruct (align_cases seq1 seq2) as (M & ms & mp & Hrun & Hal).
  destruct (fill_matrix_spec seq1 seq2) as (M' & ms' & mp' & Hrun' & _ & _ & Hlk & _).
  rewrite Hrun in Hrun'. injection Hrun' as <- <- <-.
  exists M, ms, mp. split; [assumption|]. split; [|split].
  - intros a b v Hv. apply Hlk in Hv as (_ & _ & ->). apply cell_nonneg.
  - intros s1 s2 score Hok.
    destruct mp as [pos|]; [|rewrite Hal in Hok; discriminate].
    destruct Hal as (x0 & y0 & s1' & s2' & -> & Hc & _ & Hal).
    rewrite Hal in Hok. injection Hok as <- <- <-.
    destruct (create_score_matrix_spec seq1 seq2 M _ Hc)
      as (_ & _ & _ & x & y & [= Hx0 Hy0] & Hx & Hy & _ & Hmaxi & _).
    apply Nat2Z.inj in Hx0, Hy0. subst x y. split.
    + exists x0, y0. apply Hlk. repeat split; lia.
    + intros a b v Hv. apply Hlk in Hv as (Ha & Hb & ->). now apply Hmaxi.
  - intros (a & b & v & Hv & Hpos).
    destruct mp as [pos|].
    + destruct Hal as (x0 & y0 & s1 & s2 & _ & _ & _ & Hal). eauto.
    + apply (fill_matrix_no_max_pos _ _ _ _ Hrun) in Hv. lia.
Qed.

Lemma score_is_matrix_maximum_witness :
  exists s1 s2 score,
    align (seq_of "TAG") (seq_of "GAG") = Ok (s1, s2, score)
    /\ forall a b v,
         lookup2 [[0; 0; 0; 0]; [0; 0; 0; 0]; [0; 0; 2; 1]; [0; 2; 1; 4]] a b = Some v ->
         0 <= v <= score.
Proof.
  destruct (score_is_matrix_maximum (seq_of "TAG") (seq_of "GAG"))
    as (M & ms & mp & Hrun & Hnonneg & Hscore & Hreturns).
  assert (HM : M = [[0; 0; 0; 0]; [0; 0; 0; 0]; [0; 0; 2; 1]; [0; 2; 1; 4]]).
  { vm_compute in Hrun. now injection Hrun as <- _ _. }
  subst M.
  destruct Hreturns as (s1 & s2 & score & Hal).
  { exists 3%nat, 3%nat, 4. split; [reflexivity|lia]. }
  exists s1, s2, score. split; [exact Hal|].
  intros a b v Hv. split; [eapply Hnonneg; eassumption|].
  eapply (proj2 (Hscore _ _ _ Hal)); eassumption.
Defined.

(** C6: the two aligned sequences have the same length, as returned by
    [_traceback] on any matrix and start position, and as returned by
    [align]; the assertion of [align] on the two lengths never fails. *)
Theorem aligned_lengths_equal (seq1 seq2 : sequence) :
  (forall sm start_pos s1 s2,
      _traceback sm start_pos seq1 seq2 = Ok (s1, s2) -> length s1 = length s2)
  /\ (forall s1 s2 score,
        align seq1 seq2 = Ok (s1, s2, score) -> length s1 = length s2)
  /\ align seq1 seq2 <> Raise (AssertionError "aligned strings are not the same size").
Proof.
  split; [|split].
  - intros sm start_pos s1 s2. apply traceback_lengths.
  - intros s1 s2 score Hok.
    destruct (align_cases seq1 seq2) as (M & ms & mp & _ & Hal).
    destruct mp as [pos|]; [|rewrite Hal in Hok; discriminate].
    destruct Hal as (x0 & y0 & s1' & s2' & _ & _ & Htb & Hal).
    rewrite Hal in Hok. injection Hok as <- <- _.
    eapply traceback_lengths; eassumption.
  - destruct (align_cases seq1 seq2) as (M & ms & mp & _ & Hal).
    destruct mp as [pos|].
    + destruct Hal as (x0 & y0 & s1 & s2 & _ & _ & _ & ->). discriminate.
    + rewrite Hal. unfold no_max_pos. discriminate.
Qed.

Lemma aligned_lengths_equal_witness :
  align (seq_of "AAT") (seq_of "AT") = Ok (seq_of "AAT", seq_of "A-T", 4)
  /\ length (seq_of "AAT") = length (seq_of "A-T").
Proof.
  assert (Hal : align (seq_of "AAT") (seq_of "AT") = Ok (seq_of "AAT", seq_of "A-T", 4))
    by (vm_compute; reflexivity).
  split; [exact Hal|].
  exact (proj1 (proj2 (aligned_lengths_equal (seq_of "AAT") (seq_of "AT"))) _ _ _ Hal).
Defined.

(** ** The moves of the walk (C9, C10) *)

(** C9: on a matrix and end point returned by [_create_score_matrix],
    [_next_move] returns a move at every position the walk can reach; and
    on any matrix whatever the three tests on (diag, up, left) leave no
    case out, so the ValueError branch is never taken.  (The [else] branch
    of the loop body is absent from [traceback_loop]: a value of type
    [move] is one of the four moves.) *)
Theorem next_move_never_invalid (seq1 seq2 : sequence) (M : matrix) (pos : Z * Z) :
  _create_score_matrix (Z.of_nat (length seq1) + 1) (Z.of_nat (length seq2) + 1) seq1 seq2
  = Ok (M, pos) ->
  (forall q, tb_reach M pos q -> exists mv, _next_move M q.1 q.2 = Ok mv)
  /\ (forall (sm : matrix) (x y : Z) (msg : string),
        _next_move sm x y <> Raise (ValueError msg))
  /\ (forall diag up lft : Z, exists mv, move_of_neighbours diag up lft = Ok mv).
Proof.
  intros Hc. split; [|split].
  - intros q Hq.
    destruct (create_score_matrix_spec seq1 seq2 M pos Hc)
      as (_ & _ & Hlk & x0 & y0 & -> & Hx & Hy & _).
    destruct (tb_reach_created seq1 seq2 M Hlk x0 y0 q Hx Hy Hq) as (x & y & -> & Hx' & Hy').
    destruct (next_move_created_Ok seq1 seq2 M Hlk x y) as (mv & Hmv & _); [lia|lia|].
    exists mv. exact Hmv.
  - intros sm x y msg H. apply next_move_Raise in H. discriminate.
  - intros diag up lft.
    destruct (move_of_neighbours_Ok diag up lft) as (mv & Hmv & _). eauto.
Qed.

Lemma next_move_never_invalid_witness :
  _create_score_matrix 4 4 (seq_of "TAG") (seq_of "GAG")
  = Ok ([[0; 0; 0; 0]; [0; 0; 0; 0]; [0; 0; 2; 1]; [0; 2; 1; 4]], (3, 3))
  /\ exists mv,
       _next_move [[0; 0; 0; 0]; [0; 0; 0; 0]; [0; 0; 2; 1]; [0; 2; 1; 4]] 2 2 = Ok mv.
Proof.
  assert (Hc : _create_score_matrix (Z.of_nat (length (seq_of "TAG")) + 1)
                 (Z.of_nat (length (seq_of "GAG")) + 1) (seq_of "TAG") (seq_of "GAG")
               = Ok ([[0; 0; 0; 0]; [0; 0; 0; 0]; [0; 0; 2; 1]; [0; 2; 1; 4]], (3, 3)))
    by (vm_compute; reflexivity).
  split; [exact Hc|].
  apply (proj1 (next_move_never_invalid _ _ _ _ Hc) (2, 2)).
  eapply rtc_l; [|apply rtc_refl].
  apply (tb_diag _ 3 3). vm_compute. reflexivity.
Defined.

(** C10: on a matrix and end point (x0, y0) returned by
    [_create_score_matrix], every move of the walk strictly decreases
    x + y, every position of the walk has x >= 1 and y >= 1, and END is
    read after k <= x0 + y0 moves: the loop returns as soon as it is given
    k units of fuel. *)
Theorem traceback_terminates (seq1 seq2 : sequence) (M : matrix) (x0 y0 : Z) :
  _create_score_matrix (Z.of_nat (length seq1) + 1) (Z.of_nat (length seq2) + 1) seq1 seq2
  = Ok (M, (x0, y0)) ->
  (forall p q, tb_reach M (x0, y0) p -> tb_move M p q -> q.1 + q.2 < p.1 + p.2)
  /\ (forall p, tb_reach M (x0, y0) p -> 1 <= p.1 /\ 1 <= p.2)
  /\ exists (k : nat) (xe ye : Z),
       Z.of_nat k <= x0 + y0
       /\ nsteps (tb_move M) k (x0, y0) (xe, ye)
       /\ _next_move M xe ye = Ok END
       /\ forall fuel, (k <= fuel)%nat ->
            exists a1 a2, traceback_loop fuel M seq1 seq2 [] [] x0 y0 = Ok (a1, a2, xe, ye).
Proof.
  intros Hc.
  destruct (create_score_matrix_spec seq1 seq2 M _ Hc)
    as (_ & _ & Hlk & x & y & [= -> ->] & Hx & Hy & _).
  split; [|split].
  - intros p q _ Hmove. now apply tb_move_decreases in Hmove.
  - intros p Hp.
    destruct (tb_reach_created seq1 seq2 M Hlk x y p Hx Hy Hp) as (x' & y' & -> & ? & ?).
    simpl. lia.
  - destruct (traceback_loop_created seq1 seq2 M Hlk (x + y) x y)
      as (k & xe & ye & Hsteps & Hk & Hend & _ & _ & Hrun); try lia.
    exists k, (Z.of_nat xe), (Z.of_nat ye).
    split; [lia|]. split; [assumption|]. split; [assumption|].
    intros fuel Hfuel. now apply Hrun.
Qed.

Lemma traceback_terminates_witness :
  _create_score_matrix 4 4 (seq_of "TAG") (seq_of "GAG")
  = Ok ([[0; 0; 0; 0]; [0; 0; 0; 0]; [0; 0; 2; 1]; [0; 2; 1; 4]], (3, 3))
  /\ exists (k : nat) (xe ye : Z),
       Z.of_nat k <= 3 + 3
       /\ nsteps (tb_move [[0; 0; 0; 0]; [0; 0; 0; 0]; [0; 0; 2; 1]; [0; 2; 1; 4]]) k
            (3, 3) (xe, ye)
       /\ _next_move [[0; 0; 0; 0]; [0; 0; 0; 0]; [0; 0; 2; 1]; [0; 2; 1; 4]] xe ye = Ok END
       /\ forall fuel, (k <= fuel)%nat ->
            exists a1 a2,
              traceback_loop fuel [[0; 0; 0; 0]; [0; 0; 0; 0]; [0; 0; 2; 1]; [0; 2; 1; 4]]
                (seq_of "TAG") (seq_of "GAG") [] [] 3 3 = Ok (a1, a2, xe, ye).
Proof.
  assert (Hc : _create_score_matrix (Z.of_nat (length (seq_of "TAG")) + 1)
                 (Z.of_nat (length (seq_of "GAG")) + 1) (seq_of "TAG") (seq_of "GAG")
               = Ok ([[0; 0; 0; 0]; [0; 0; 0; 0]; [0; 0; 2; 1]; [0; 2; 1; 4]], (3, 3)))
    by (vm_compute; reflexivity).
  split; [exact Hc|].
  exact (proj2 (proj2 (traceback_terminates _ _ _ _ _ Hc))).
Defined.

(** ** Aligning a sequence with itself (C7) *)

Lemma similarity_le (seq1 seq2 : sequence) (i j : nat) : similarity seq1 seq2 i j <= 2.
Proof.
  unfold similarity, match_score, mismatch.
  destruct (seq1 !! i), (seq2 !! j); try lia. destruct (Ascii.eqb _ _); lia.
Qed.

(** A path to [(i, j)] scores at most 2 per matched pair. *)
Lemma cell_le_min (seq1 seq2 : sequence) (i j : nat) :
  cell seq1 seq2 i j <= 2 * Z.of_nat (Nat.min i j).
Proof.
  revert j. induction i as [|i IHi]; intros j; [rewrite cell_row0; lia|].
  induction j as [|j IHj]; [rewrite cell_col0; lia|].
  rewrite cell_step. unfold gap.
  pose proof (similarity_le seq1 seq2 i j).
  pose proof (IHi j). pose proof (IHi (S j)). lia.
Qed.

Lemma cell_diagonal (s : sequence) (i : nat) :
  (i <= length s)%nat -> cell s s i i = 2 * Z.of_nat i.
Proof.
  induction i as [|i IH]; intros Hi; [reflexivity|].
  rewrite cell_step, IH by lia. unfold gap.
  destruct (lookup_lt_is_Some_2 s i) as [c Hc]; [lia|].
  unfold similarity. rewrite Hc, Ascii.eqb_refl. unfold match_score.
  pose proof (cell_le_min s s i (S i)). pose proof (cell_le_min s s (S i) i). lia.
Qed.

Section Identity.

Variable s : sequence.
Variable M : matrix.

Let n := length s.

Hypothesis M_cells :
  forall a b v, lookup2 M a b = Some v <-> (a <= n)%nat /\ (b <= n)%nat /\ v = cell s s a b.

(** On the diagonal the upper-left neighbour is never beaten. *)
Lemma next_move_diagonal (i : nat) :
  (1 <= i <= n)%nat ->
  _next_move M (Z.of_nat i) (Z.of_nat i) = Ok (if (i =? 1)%nat then END else DIAG).
Proof.
  intros Hi. rewrite (next_move_created s s M M_cells) by (fold n; lia).
  rewrite cell_diagonal by (fold n; lia).
  pose proof (cell_le_min s s (i - 1) i). pose proof (cell_le_min s s i (i - 1)).
  unfold move_of_neighbours.
  destruct (Z.geb_spec (2 * Z.of_nat (i - 1)) (cell s s (i - 1) i)); [|lia].
  destruct (Z.geb_spec (2 * Z.of_nat (i - 1)) (cell s s i (i - 1))); [|lia].
  cbn [andb].
  destruct (Nat.eqb_spec i 1) as [->|Hne]; [reflexivity|].
  destruct (Z.eqb_spec (2 * Z.of_nat (i - 1)) 0); [lia|reflexivity].
Qed.

Lemma traceback_loop_diagonal :
  forall (i fuel : nat) (a1 a2 : list ascii),
    (1 <= i <= n)%nat -> (i <= fuel + 1)%nat ->
    traceback_loop fuel M s s a1 a2 (Z.of_nat i) (Z.of_nat i)
    = Ok (a1 ++ rev (drop 1 (take i s)), a2 ++ rev (drop 1 (take i s)), 1, 1).
Proof.
  induction i as [|i IH]; intros fuel a1 a2 Hi Hfuel; [lia|].
  rewrite traceback_loop_eq, next_move_diagonal by assumption. cbn [bind].
  destruct (Nat.eqb_spec (S i) 1) as [Hone|Hne].
  - injection Hone as ->.
    replace (drop 1 (take 1 s)) with (@nil ascii) by (destruct s; reflexivity).
    simpl. now rewrite !app_nil_r.
  - destruct (lookup_lt_is_Some_2 s i) as [c Hc]; [fold n; lia|].
    replace (Z.of_nat (S i) - 1) with (Z.of_nat i) by lia.
    rewrite (getitem_nat _ _ _ Hc). cbn [bind].
    destruct fuel as [|fuel]; [lia|].
    rewrite IH by lia.
    rewrite (take_S_r _ _ _ Hc).
    rewrite drop_app_le by (rewrite length_take; fold n; lia).
    rewrite rev_unit, <- !app_assoc. reflexivity.
Qed.

Lemma traceback_identity :
  (1 <= n)%nat -> _traceback M (Z.of_nat n, Z.of_nat n) s s = Ok (s, s).
Proof.
  intros Hn. unfold _traceback.
  rewrite traceback_loop_diagonal; [|lia|unfold traceback_fuel; lia].
  cbn [bind app]. subst n.
  destruct s as [|c s']; [simpl in Hn; lia|].
  rewrite firstn_all. cbn [bind drop getitem]. simpl.
  rewrite rev_unit, rev_involutive. reflexivity.
Qed.

End Identity.

(** C7: for a non-empty sequence s, align(s, s) returns s twice, with
    no gap inserted, and the score 2 * len(s). *)
Theorem align_identity (s : sequence) :
  s <> [] -> align s s = Ok (s, s, 2 * Z.of_nat (length s)).
Proof.
  intros Hne.
  assert (Hn : (1 <= length s)%nat) by (destruct s; [congruence|simpl; lia]).
  destruct (align_cases s s) as (M & ms & mp & Hrun & Hal).
  destruct mp as [pos|].
  - destruct Hal as (x0 & y0 & s1 & s2 & -> & Hc & Htb & ->).
    destruct (create_score_matrix_spec s s M _ Hc)
      as (_ & _ & Hlk & x & y & [= Hx0 Hy0] & Hx & Hy & _ & Hmaxi & _).
    apply Nat2Z.inj in Hx0, Hy0. subst x y.
    pose proof (Hmaxi (length s) (length s) (le_n _) (le_n _)) as Hbig.
    rewrite cell_diagonal in Hbig by lia.
    pose proof (cell_le_min s s x0 y0) as Hsmall.
    assert (x0 = length s /\ y0 = length s) as [-> ->] by lia.
    rewrite (traceback_identity s M Hlk Hn) in Htb. injection Htb as <- <-.
    now rewrite cell_diagonal by lia.
  - exfalso.
    destruct (fill_matrix_spec s s) as (M' & ms' & mp' & Hrun' & _ & _ & Hlk & _).
    rewrite Hrun in Hrun'. injection Hrun' as <- <- <-.
    assert (Hv : lookup2 M 1 1 = Some (cell s s 1 1)) by (apply Hlk; repeat split; lia).
    apply (fill_matrix_no_max_pos _ _ _ _ Hrun) in Hv.
    rewrite cell_diagonal in Hv by lia. lia.
Qed.

Lemma align_identity_witness :
  align (seq_of "GATTACA") (seq_of "GATTACA") = Ok (seq_of "GATTACA", seq_of "GATTACA", 14).
Proof. apply (align_identity (seq_of "GATTACA")). discriminate. Defined.

(** ** The alignment string (C8) *)

Lemma occurrences_app (c : ascii) (l k : list ascii) :
  occurrences c (l ++ k) = occurrences c l + occurrences c k.
Proof. unfold occurrences. rewrite count_occ_app. lia. Qed.

Lemma occurrences_cons (c x : ascii) (l : list ascii) :
  occurrences c (x :: l) = occurrences c [x] + occurrences c l.
Proof. apply (occurrences_app c [x] l). Qed.

Lemma render_step_mark (marks : list ascii) (idents gaps mismatches : Z) (p : ascii * ascii) :
  render_step (marks, idents, gaps, mismatches) p
  = (marks ++ [mark_of p], idents + occurrences "|" [mark_of p],
     gaps + occurrences " " [mark_of p], mismatches + occurrences ":" [mark_of p]).
Proof.
  destruct p as [b1 b2]. unfold render_step, mark_of. cbn [fst snd].
  destruct (Ascii.eqb b1 b2); [|destruct (Ascii.eqb "-" b1 || Ascii.eqb "-" b2)];
    unfold occurrences; simpl count_occ; simpl Z.of_nat; now rewrite ?Z.add_0_r.
Qed.

Lemma render_fold (l : list (ascii * ascii)) :
  forall (marks : list ascii) (idents gaps mismatches : Z),
    foldl render_step (marks, idents, gaps, mismatches) l
    = (marks ++ (mark_of <$> l), idents + occurrences "|" (mark_of <$> l),
       gaps + occurrences " " (mark_of <$> l), mismatches + occurrences ":" (mark_of <$> l)).
Proof.
  induction l as [|p l IH]; intros marks idents gaps mismatches.
  - simpl. now rewrite app_nil_r, !Z.add_0_r.
  - cbn [foldl]. rewrite render_step_mark, IH, fmap_cons, <- app_assoc.
    rewrite (occurrences_cons "|" (mark_of p) (mark_of <$> l)),
      (occurrences_cons " " (mark_of p) (mark_of <$> l)),
      (occurrences_cons ":" (mark_of p) (mark_of <$> l)).
    cbn [app]. now rewrite !Z.add_assoc.
Qed.

Lemma mark_of_cases (p : ascii * ascii) :
  mark_of p = "|"%char \/ mark_of p = " "%char \/ mark_of p = ":"%char.
Proof.
  unfold mark_of. destruct (Ascii.eqb p.1 p.2); [now left|].
  destruct (Ascii.eqb "-" p.1 || Ascii.eqb "-" p.2); [right; now left|right; now right].
Qed.

Lemma marks_counted (l : list (ascii * ascii)) :
  occurrences "|" (mark_of <$> l) + occurrences " " (mark_of <$> l)
  + occurrences ":" (mark_of <$> l) = Z.of_nat (length l).
Proof.
  induction l as [|p l IH]; [reflexivity|].
  rewrite fmap_cons.
  rewrite (occurrences_cons "|" (mark_of p) (mark_of <$> l)),
    (occurrences_cons " " (mark_of p) (mark_of <$> l)),
    (occurrences_cons ":" (mark_of p) (mark_of <$> l)).
  destruct (mark_of_cases p) as [-> | [-> | ->]];
    repeat match goal with
      | |- context [occurrences ?c [?x]] =>
          let v := eval vm_compute in (occurrences c [x]) in
          change (occurrences c [x]) with v
      end;
    cbn [length]; lia.
Qed.

(** The code and the specification's rule differ only on a pair of two
    gap symbols. *)
Lemma render_step_agrees (st : render_state) (b1 b2 : ascii) :
  ~ (b1 = "-"%char /\ b2 = "-"%char) ->
  render_step st (b1, b2) = render_step_spec st (b1, b2).
Proof.
  intros Hgap. destruct st as [[[marks idents] gaps] mismatches].
  unfold render_step, render_step_spec.
  rewrite (Ascii.eqb_sym "-" b1), (Ascii.eqb_sym "-" b2).
  destruct (Ascii.eqb_spec b1 b2) as [->|Hne]; cbn [andb]; [|reflexivity].
  destruct (Ascii.eqb_spec b2 "-") as [->|Hng]; cbn [negb]; [tauto|reflexivity].
Qed.

Lemma render_fold_agrees (l : list (ascii * ascii)) :
  (forall p, p ∈ l -> ~ (p.1 = "-"%char /\ p.2 = "-"%char)) ->
  forall st, foldl render_step st l = foldl render_step_spec st l.
Proof.
  induction l as [|[b1 b2] l IH]; intros Hgap st; [reflexivity|].
  cbn [foldl]. rewrite render_step_agrees.
  - apply IH. intros p Hp. apply Hgap. now right.
  - apply (Hgap (b1, b2)). now left.
Qed.

(** On two gap symbols the code compares the symbols first: it writes
    '|' and counts an identity, where the rule of the specification gives
    a blank and a gap. *)
Lemma alignment_string_two_gaps :
  _alignment_string (seq_of "-") (seq_of "-") = (seq_of "|", 1, 0, 0)
  /\ alignment_string_spec (seq_of "-") (seq_of "-") = (seq_of " ", 0, 1, 0)
  /\ _alignment_string (seq_of "-") (seq_of "-")
     <> alignment_string_spec (seq_of "-") (seq_of "-").
Proof.
  split; [vm_compute; reflexivity|]. split; [vm_compute; reflexivity|].
  vm_compute. discriminate.
Qed.

(** C8, as the code has it: for two aligned sequences of equal length,
    position i is marked '|' and counted as an identity exactly when the
    two symbols are equal (two gap symbols included), marked with a blank
    and counted as a gap exactly when they differ and one of them is '-',
    and marked ':' and counted as a mismatch otherwise; the three counts
    add up to the length.  When no position holds '-' on both sides this
    is the rule of the specification. *)
Theorem alignment_string_classifies (a1 a2 marks : list ascii) (idents gaps mismatches : Z) :
  length a1 = length a2 ->
  _alignment_string a1 a2 = (marks, idents, gaps, mismatches) ->
  length marks = length a1
  /\ (forall i c1 c2, a1 !! i = Some c1 -> a2 !! i = Some c2 ->
        (c1 = c2 -> marks !! i = Some "|"%char)
        /\ (c1 <> c2 -> c1 = "-"%char \/ c2 = "-"%char -> marks !! i = Some " "%char)
        /\ (c1 <> c2 -> c1 <> "-"%char -> c2 <> "-"%char -> marks !! i = Some ":"%char))
  /\ idents = occurrences "|" marks
  /\ gaps = occurrences " " marks
  /\ mismatches = occurrences ":" marks
  /\ idents + gaps + mismatches = Z.of_nat (length a1)
  /\ ((forall i, ~ (a1 !! i = Some "-"%char /\ a2 !! i = Some "-"%char)) ->
      alignment_string_spec a1 a2 = (marks, idents, gaps, mismatches)).
Proof.
  intros Hlen Hrun. unfold _alignment_string in Hrun.
  pose proof (render_fold (zip a1 a2) [] 0 0 0) as Hf.
  rewrite Hrun in Hf. cbn [app] in Hf. rewrite !Z.add_0_l in Hf.
  injection Hf as -> -> -> ->.
  assert (Hzl : length (zip a1 a2) = length a1)
    by (rewrite length_zip_with; lia).
  pose proof (marks_counted (zip a1 a2)) as Hsum. rewrite Hzl in Hsum.
  split; [now rewrite length_fmap|].
  split; [|split; [reflexivity|split; [reflexivity|split; [reflexivity|split; [exact Hsum|]]]]].
  - intros i c1 c2 H1 H2.
    assert (Hmark : (mark_of <$> zip a1 a2) !! i = Some (mark_of (c1, c2))).
    { rewrite list_lookup_fmap, lookup_zip_with, H1, H2. reflexivity. }
    rewrite Hmark. unfold mark_of. cbn [fst snd].
    rewrite (Ascii.eqb_sym "-" c1), (Ascii.eqb_sym "-" c2).
    destruct (Ascii.eqb_spec c1 c2) as [Heq|Hne],
      (Ascii.eqb_spec c1 "-") as [Hg1|Hg1], (Ascii.eqb_spec c2 "-") as [Hg2|Hg2];
      cbn [orb]; repeat split; intros; first [reflexivity|congruence|tauto].
  - intros Hgap. unfold alignment_string_spec.
    rewrite <- render_fold_agrees; [exact Hrun|].
    intros [b1 b2] Hp [Hb1 Hb2]. cbn [fst snd] in *. subst b1 b2.
    apply list_elem_of_lookup in Hp as (i & Hp).
    rewrite lookup_zip_with in Hp.
    destruct (a1 !! i) as [c1|] eqn:E1; [|discriminate].
    destruct (a2 !! i) as [c2|] eqn:E2; [|discriminate].
    cbn in Hp. injection Hp as -> ->. apply (Hgap i). now rewrite E1, E2.
Qed.

Lemma alignment_string_classifies_witness :
  _alignment_string (seq_of "AAT") (seq_of "A-C") = (seq_of "| :", 1, 1, 1)
  /\ 1 + 1 + 1 = Z.of_nat (length (seq_of "AAT"))
  /\ alignment_string_spec (seq_of "AAT") (seq_of "A-C") = (seq_of "| :", 1, 1, 1).
Proof.
  assert (Hrun : _alignment_string (seq_of "AAT") (seq_of "A-C") = (seq_of "| :", 1, 1, 1))
    by (vm_compute; reflexivity).
  destruct (alignment_string_classifies (seq_of "AAT") (seq_of "A-C") _ _ _ _ eq_refl Hrun)
    as (_ & _ & _ & _ & _ & Hsum & Hspec).
  split; [exact Hrun|]. split; [exact Hsum|].
  apply Hspec. intros i [H1 H2].
  destruct i as [|[|[|i]]]; cbv in H1, H2; congruence.
Defined.

(** ** When [align] returns, and with which score *)

Section Outcome.

Variables seq1 seq2 : sequence.

Local Abbreviation cell := (cell seq1 seq2).

(** The two outcomes of [align], in terms of the recurrence. *)
Lemma align_outcome :
  (align seq1 seq2 = Raise no_max_pos
   /\ forall a b, (a <= length seq1)%nat -> (b <= length seq2)%nat -> cell a b = 0)
  \/ exists (x0 y0 : nat) (a1 a2 : list ascii) (M : matrix),
       (1 <= x0 <= length seq1)%nat /\ (1 <= y0 <= length seq2)%nat
       /\ 0 < cell x0 y0
       /\ (forall a b, (a <= length seq1)%nat -> (b <= length seq2)%nat ->
                       cell a b <= cell x0 y0)
       /\ (forall a b v, lookup2 M a b = Some v
                         <-> (a <= length seq1)%nat /\ (b <= length seq2)%nat /\ v = cell a b)
       /\ _traceback M (Z.of_nat x0, Z.of_nat y0) seq1 seq2 = Ok (a1, a2)
       /\ align seq1 seq2 = Ok (a1, a2, cell x0 y0).
Proof.
  destruct (align_cases seq1 seq2) as (M & ms & mp & Hrun & Hal).
  destruct mp as [pos|].
  - right. destruct Hal as (x0 & y0 & a1 & a2 & -> & Hc & Htb & Hal).
    destruct (create_score_matrix_spec seq1 seq2 M _ Hc)
      as (_ & _ & Hlk & x & y & [= Hx0 Hy0] & Hx & Hy & Hpos & Hmaxi & _).
    apply Nat2Z.inj in Hx0, Hy0. subst x y.
    exists x0, y0, a1, a2, M. auto 10.
  - left. split; [exact Hal|]. intros a b Ha Hb.
    destruct (fill_matrix_spec seq1 seq2) as (M' & ms' & mp' & Hrun' & _ & _ & Hlk & _).
    rewrite Hrun in Hrun'. injection Hrun' as <- <- <-.
    apply (fill_matrix_no_max_pos _ _ _ _ Hrun a b). apply Hlk. auto.
Qed.

(** A cell is positive only below and right of a pair of equal symbols. *)
Lemma cell_pos_share (a b : nat) :
  0 < cell a b ->
  exists i j c, (i < a)%nat /\ (j < b)%nat /\ seq1 !! i = Some c /\ seq2 !! j = Some c.
Proof.
  revert b. induction a as [|a IHa]; intros b Hpos; [rewrite cell_row0 in Hpos; lia|].
  induction b as [|b IHb]; [rewrite cell_col0 in Hpos; lia|].
  rewrite cell_step in Hpos. unfold gap in Hpos.
  destruct (Z_lt_le_dec 0 (cell a (S b))) as [Hup|Hup].
  { destruct (IHa _ Hup) as (i & j & c & ? & ? & ? & ?). exists i, j, c. auto with lia. }
  destruct (Z_lt_le_dec 0 (cell (S a) b)) as [Hleft|Hleft].
  { destruct (IHb Hleft) as (i & j & c & ? & ? & ? & ?). exists i, j, c. auto with lia. }
  destruct (Z_lt_le_dec 0 (cell a b)) as [Hdiag|Hdiag].
  { destruct (IHa _ Hdiag) as (i & j & c & ? & ? & ? & ?). exists i, j, c. auto with lia. }
  unfold similarity, match_score, mismatch in Hpos.
  destruct (seq1 !! a) as [c1|] eqn:E1; [|lia].
  destruct (seq2 !! b) as [c2|] eqn:E2; [|lia].
  destruct (Ascii.eqb_spec c1 c2) as [->|Hne]; [|lia].
  exists a, b, c2. auto with lia.
Qed.

(** A pair of equal symbols scores at least one match. *)
Lemma share_cell_pos (i j : nat) (c : ascii) :
  seq1 !! i = Some c -> seq2 !! j = Some c -> 2 <= cell (S i) (S j).
Proof.
  intros H1 H2. rewrite cell_step. unfold similarity. rewrite H1, H2, Ascii.eqb_refl.
  pose proof (cell_nonneg seq1 seq2 i j). unfold match_score. lia.
Qed.

End Outcome.

Lemma align_shared_symbol_cases (seq1 seq2 : sequence) :
  (share_symbol seq1 seq2 <-> exists a1 a2 score, align seq1 seq2 = Ok (a1, a2, score))
  /\ (~ share_symbol seq1 seq2 <->
      align seq1 seq2
      = Raise (AssertionError "the x, y position with the highest score was not found"))
  /\ (forall e, align seq1 seq2 = Raise e ->
        e = AssertionError "the x, y position with the highest score was not found")
  /\ align seq1 seq2 <> OutOfFuel.
Proof.
  destruct (align_outcome seq1 seq2)
    as [[Hal Hzero]|(x0 & y0 & a1 & a2 & M & Hx & Hy & Hpos & _ & _ & _ & Hal)].
  - assert (Hno : ~ share_symbol seq1 seq2).
    { intros (i & j & c & H1 & H2).
      pose proof (share_cell_pos seq1 seq2 i j c H1 H2) as Hc.
      apply lookup_lt_Some in H1, H2. rewrite Hzero in Hc; lia. }
    rewrite Hal. repeat split; try tauto; try discriminate.
    + intros (? & ? & ? & ?). discriminate.
    + now intros e [= <-].
  - assert (Hyes : share_symbol seq1 seq2).
    { destruct (cell_pos_share seq1 seq2 x0 y0 Hpos) as (i & j & c & _ & _ & H1 & H2).
      exists i, j, c. auto. }
    rewrite Hal. repeat split; try tauto; try discriminate; eauto.
Qed.

(** [align] returns exactly when the two sequences hold a common symbol;
    otherwise it fails the assertion on [max_pos], and it raises nothing
    else. *)
Theorem align_returns_iff_shared_symbol (seq1 seq2 : sequence) :
  (share_symbol seq1 seq2 <-> exists a1 a2 score, align seq1 seq2 = Ok (a1, a2, score))
  /\ (~ share_symbol seq1 seq2 <->
      align seq1 seq2
      = Raise (AssertionError "the x, y position with the highest score was not found"))
  /\ (forall e, align seq1 seq2 = Raise e ->
        e = AssertionError "the x, y position with the highest score was not found")
  /\ align seq1 seq2 <> OutOfFuel.
Proof. exact (align_shared_symbol_cases seq1 seq2). Qed.

Lemma align_returns_iff_shared_symbol_witness :
  (exists a1 a2 score, align (seq_of "TAG") (seq_of "GAG") = Ok (a1, a2, score))
  /\ align (seq_of "AAA") (seq_of "CG")
     = Raise (AssertionError "the x, y position with the highest score was not found").
Proof.
  split.
  - apply (proj1 (align_returns_iff_shared_symbol (seq_of "TAG") (seq_of "GAG"))).
    exists 1%nat, 1%nat, "A"%char. split; reflexivity.
  - apply (proj1 (proj2 (align_returns_iff_shared_symbol (seq_of "AAA") (seq_of "CG")))).
    intros (i & j & c & H1 & H2).
    destruct j as [|[|j]]; cbv in H2; try discriminate;
      injection H2 as <-; destruct i as [|[|[|i]]]; cbv in H1; discriminate.
Defined.

(** The score returned by [align] is at least one match and at most one
    match per symbol of the shorter sequence. *)
Theorem align_score_bounds (seq1 seq2 : sequence) (a1 a2 : list ascii) (score : Z) :
  align seq1 seq2 = Ok (a1, a2, score) ->
  2 <= score <= 2 * Z.of_nat (Nat.min (length seq1) (length seq2)).
Proof.
  intros Hok.
  destruct (align_outcome seq1 seq2)
    as [[Hal _]|(x0 & y0 & b1 & b2 & M & Hx & Hy & Hpos & Hmaxi & _ & _ & Hal)];
    rewrite Hal in Hok; [discriminate|]. injection Hok as _ _ <-.
  split.
  - destruct (cell_pos_share seq1 seq2 x0 y0 Hpos) as (i & j & c & Hi & Hj & H1 & H2).
    pose proof (share_cell_pos seq1 seq2 i j c H1 H2).
    specialize (Hmaxi (S i) (S j)). lia.
  - pose proof (cell_le_min seq1 seq2 x0 y0). lia.
Qed.

Lemma align_score_bounds_witness :
  align (seq_of "AAT") (seq_of "AT") = Ok (seq_of "AAT", seq_of "A-T", 4)
  /\ 2 <= 4 <= 2 * Z.of_nat (Nat.min 3 2).
Proof.
  assert (Hal : align (seq_of "AAT") (seq_of "AT") = Ok (seq_of "AAT", seq_of "A-T", 4))
    by (vm_compute; reflexivity).
  split; [exact Hal|]. exact (align_score_bounds _ _ _ _ _ Hal).
Defined.

(** ** How the score changes with the sequences *)

Lemma similarity_transpose (seq1 seq2 : sequence) (i j : nat) :
  similarity seq1 seq2 i j = similarity seq2 seq1 j i.
Proof.
  unfold similarity. destruct (seq1 !! i), (seq2 !! j); try reflexivity.
  now rewrite Ascii.eqb_sym.
Qed.

(** Swapping the sequences transposes the matrix. *)
Lemma cell_transpose (seq1 seq2 : sequence) (i j : nat) :
  cell seq1 seq2 i j = cell seq2 seq1 j i.
Proof.
  revert j. induction i as [|i IHi]; intros j.
  - now rewrite cell_row0, cell_col0.
  - induction j as [|j IHj]; [now rewrite cell_row0, cell_col0|].
    rewrite !cell_step, IHj, (IHi j), (IHi (S j)), similarity_transpose. lia.
Qed.

(** A cell depends on the two prefixes only. *)
Lemma cell_app (s1 s2 t u : sequence) (i j : nat) :
  (i <= length s1)%nat -> (j <= length s2)%nat ->
  cell (s1 ++ t) (s2 ++ u) i j = cell s1 s2 i j.
Proof.
  revert j. induction i as [|i IHi]; intros j Hi Hj; [now rewrite !cell_row0|].
  induction j as [|j IHj]; [now rewrite !cell_col0|].
  rewrite !cell_step, IHj, (IHi j), (IHi (S j)) by lia.
  unfold similarity. now rewrite !lookup_app_l by lia.
Qed.

(** Symbols put in front of the sequences can only raise the cells. *)
Lemma cell_shift (s1 s2 t u : sequence) (i j : nat) :
  cell s1 s2 i j <= cell (t ++ s1) (u ++ s2) (length t + i) (length u + j).
Proof.
  revert j. induction i as [|i IHi]; intros j; [rewrite cell_row0; apply cell_nonneg|].
  induction j as [|j IHj]; [rewrite cell_col0; apply cell_nonneg|].
  replace (length t + S i)%nat with (S (length t + i)) in * by lia.
  replace (length u + S j)%nat with (S (length u + j)) in * by lia.
  rewrite !cell_step.
  assert (Hsim : similarity (t ++ s1) (u ++ s2) (length t + i) (length u + j)
                 = similarity s1 s2 i j).
  { unfold similarity. rewrite !lookup_app_r by lia.
    now replace (length t + i - length t)%nat with i by lia;
      replace (length u + j - length u)%nat with j by lia. }
  rewrite Hsim.
  pose proof (IHi j) as Hd. pose proof (IHi (S j)) as Hu.
  replace (length u + S j)%nat with (S (length u + j)) in Hu by lia.
  lia.
Qed.

(** The score does not depend on the order of the two sequences (the
    aligned strings may: ties are broken towards UP and towards the first
    row). *)
Theorem align_score_symmetric (seq1 seq2 : sequence) :
  (forall a1 a2 score,
      align seq1 seq2 = Ok (a1, a2, score) ->
      exists b1 b2, align seq2 seq1 = Ok (b1, b2, score))
  /\ (forall e, align seq1 seq2 = Raise e -> align seq2 seq1 = Raise e).
Proof.
  split.
  - intros a1 a2 score Hok.
    destruct (align_outcome seq1 seq2)
      as [[Hal _]|(x0 & y0 & c1 & c2 & M & Hx & Hy & Hpos & Hmaxi & _ & _ & Hal)];
      rewrite Hal in Hok; [discriminate|]. injection Hok as _ _ <-.
    destruct (align_outcome seq2 seq1)
      as [[_ Hzero]|(x1 & y1 & b1 & b2 & M' & Hx1 & Hy1 & _ & Hmaxi' & _ & _ & Hal')].
    + specialize (Hzero y0 x0). rewrite <- cell_transpose in Hzero. lia.
    + exists b1, b2. rewrite Hal'.
      specialize (Hmaxi' y0 x0). specialize (Hmaxi y1 x1).
      rewrite <- cell_transpose in Hmaxi'. rewrite (cell_transpose seq1 seq2 y1 x1) in Hmaxi.
      assert (Heq : cell seq2 seq1 x1 y1 = cell seq1 seq2 x0 y0) by lia.
      now rewrite Heq.
  - intros e Hr.
    destruct (align_outcome seq1 seq2)
      as [[Hal Hzero]|(x0 & y0 & c1 & c2 & M & _ & _ & _ & _ & _ & _ & Hal)];
      rewrite Hal in Hr; [|discriminate]. injection Hr as <-.
    destruct (align_outcome seq2 seq1)
      as [[Hal' _]|(x1 & y1 & b1 & b2 & M' & Hx1 & Hy1 & Hpos & _)]; [exact Hal'|].
    rewrite cell_transpose, Hzero in Hpos; lia.
Qed.

Lemma align_score_symmetric_witness :
  align (seq_of "AAT") (seq_of "AT") = Ok (seq_of "AAT", seq_of "A-T", 4)
  /\ exists b1 b2, align (seq_of "AT") (seq_of "AAT") = Ok (b1, b2, 4).
Proof.
  assert (Hal : align (seq_of "AAT") (seq_of "AT") = Ok (seq_of "AAT", seq_of "A-T", 4))
    by (vm_compute; reflexivity).
  split; [exact Hal|].
  exact (proj1 (align_score_symmetric _ _) _ _ _ Hal).
Defined.

(** Symbols added in front of or behind either sequence never lower the
    score, and never make [align] fail. *)
Theorem align_score_monotone (seq1 seq2 t1 t2 u1 u2 : sequence)
    (a1 a2 : list ascii) (score : Z) :
  align seq1 seq2 = Ok (a1, a2, score) ->
  exists b1 b2 score',
    align (t1 ++ seq1 ++ t2) (u1 ++ seq2 ++ u2) = Ok (b1, b2, score')
    /\ score <= score'.
Proof.
  intros Hok.
  destruct (align_outcome seq1 seq2)
    as [[Hal _]|(x0 & y0 & c1 & c2 & M & Hx & Hy & Hpos & _ & _ & _ & Hal)];
    rewrite Hal in Hok; [discriminate|]. injection Hok as _ _ <-.
  pose proof (cell_shift (seq1 ++ t2) (seq2 ++ u2) t1 u1 x0 y0) as Hbig.
  rewrite cell_app in Hbig by lia.
  destruct (align_outcome (t1 ++ seq1 ++ t2) (u1 ++ seq2 ++ u2))
    as [[_ Hzero]|(x1 & y1 & b1 & b2 & M' & _ & _ & _ & Hmaxi & _ & _ & Hal')].
  - rewrite Hzero in Hbig; [lia| |]; rewrite !length_app; lia.
  - exists b1, b2, (cell (t1 ++ seq1 ++ t2) (u1 ++ seq2 ++ u2) x1 y1).
    split; [exact Hal'|].
    specialize (Hmaxi (length t1 + x0)%nat (length u1 + y0)%nat).
    rewrite !length_app in Hmaxi. lia.
Qed.

Lemma align_score_monotone_witness :
  align (seq_of "AG") (seq_of "AG") = Ok (seq_of "AG", seq_of "AG", 4)
  /\ exists b1 b2 score',
       align (seq_of "TAGC") (seq_of "GAG") = Ok (b1, b2, score') /\ 4 <= score'.
Proof.
  assert (Hal : align (seq_of "AG") (seq_of "AG") = Ok (seq_of "AG", seq_of "AG", 4))
    by (vm_compute; reflexivity).
  split; [exact Hal|].
  exact (align_score_monotone _ _ (seq_of "T") (seq_of "C") (seq_of "G") [] _ _ _ Hal).
Defined.

(** ** The aligned strings spell two slices of the sequences *)

Lemma slice_empty {A} (l : list A) (i : nat) : slice l i i = [].
Proof. unfold slice. now rewrite Nat.sub_diag. Qed.

Lemma slice_snoc {A} (l : list A) (i j : nat) (c : A) :
  (i <= j)%nat -> l !! j = Some c -> slice l i (S j) = slice l i j ++ [c].
Proof.
  intros Hij Hc. unfold slice.
  replace (S j - i)%nat with (S (j - i)) by lia.
  apply take_S_r. rewrite lookup_drop. now replace (i + (j - i))%nat with j by lia.
Qed.

Lemma slice_cons {A} (l : list A) (i j : nat) (c : A) :
  (i < j)%nat -> l !! i = Some c -> slice l i j = c :: slice l (S i) j.
Proof.
  intros Hij Hc. unfold slice. rewrite (drop_S _ _ _ Hc).
  now replace (j - i)%nat with (S (j - S i)) by lia.
Qed.

Lemma slice_subseteq {A} (l : list A) (i j : nat) : slice l i j ⊆ l.
Proof.
  unfold slice. etransitivity; [apply subseteq_take|apply subseteq_drop].
Qed.

Lemma is_alignment_app (s1 s2 a1 a2 t1 t2 b1 b2 : list ascii) :
  is_alignment s1 s2 a1 a2 -> is_alignment t1 t2 b1 b2 ->
  is_alignment (s1 ++ t1) (s2 ++ t2) (a1 ++ b1) (a2 ++ b2).
Proof.
  intros H1 H2. induction H1; simpl; [assumption|now constructor..].
Qed.

Lemma is_alignment_lengths (s1 s2 a1 a2 : list ascii) :
  is_alignment s1 s2 a1 a2 ->
  length a1 = length a2
  /\ (length s1 <= length a1)%nat /\ (length s2 <= length a1)%nat
  /\ (length a1 <= length s1 + length s2)%nat.
Proof. intros H. induction H; simpl; lia. Qed.

(** Without gap symbol in the sequences, the gaps of an alignment are
    the inserted ones: no column holds two of them, and removing them
    gives the sequences back. *)
Lemma is_alignment_gap_free (s1 s2 a1 a2 : list ascii) :
  is_alignment s1 s2 a1 a2 ->
  "-"%char ∉ s1 -> "-"%char ∉ s2 ->
  (forall p, p ∈ zip a1 a2 -> ~ (p.1 = "-"%char /\ p.2 = "-"%char))
  /\ filter (fun c => c <> "-"%char) a1 = s1
  /\ filter (fun c => c <> "-"%char) a2 = s2.
Proof.
  intros H. induction H as [|c1 c2 s1 s2 a1 a2 H IH|c1 s1 s2 a1 a2 H IH|c2 s1 s2 a1 a2 H IH];
    intros H1 H2.
  - repeat split; try reflexivity. intros p Hp. inversion Hp.
  - apply not_elem_of_cons in H1 as [Hc1 H1]. apply not_elem_of_cons in H2 as [Hc2 H2].
    destruct (IH H1 H2) as (Hcol & Hf1 & Hf2). repeat split.
    + intros p Hp. apply elem_of_cons in Hp as [->|Hp]; [simpl; intros [? _]; congruence|auto].
    + rewrite filter_cons_True by congruence. now rewrite Hf1.
    + rewrite filter_cons_True by congruence. now rewrite Hf2.
  - apply not_elem_of_cons in H1 as [Hc1 H1].
    destruct (IH H1 H2) as (Hcol & Hf1 & Hf2). repeat split.
    + intros p Hp. apply elem_of_cons in Hp as [->|Hp]; [simpl; intros [? _]; congruence|auto].
    + rewrite filter_cons_True by congruence. now rewrite Hf1.
    + rewrite filter_cons_False by (intros Hn; now apply Hn). exact Hf2.
  - apply not_elem_of_cons in H2 as [Hc2 H2].
    destruct (IH H1 H2) as (Hcol & Hf1 & Hf2). repeat split.
    + intros p Hp. apply elem_of_cons in Hp as [->|Hp]; [simpl; intros [_ ?]; congruence|auto].
    + rewrite filter_cons_False by (intros Hn; now apply Hn). exact Hf1.
    + rewrite filter_cons_True by congruence. now rewrite Hf2.
Qed.

Section WalkAlignment.

Variables seq1 seq2 : sequence.
Variable M : matrix.

Local Abbreviation cell := (cell seq1 seq2).

Hypothesis M_cells :
  forall a b v, lookup2 M a b = Some v
                <-> (a <= length seq1)%nat /\ (b <= length seq2)%nat /\ v = cell a b.

(** The symbols appended by the loop from [(x, y)] down to [(xe, ye)],
    read backwards, align [seq1[xe:x]] with [seq2[ye:y]]. *)
Lemma traceback_loop_alignment :
  forall (s x y : nat),
    (x + y <= s)%nat -> (1 <= x <= length seq1)%nat -> (1 <= y <= length seq2)%nat ->
    exists (xe ye : nat) (d1 d2 : list ascii),
      (1 <= xe <= x)%nat /\ (1 <= ye <= y)%nat
      /\ is_alignment (slice seq1 xe x) (slice seq2 ye y) (rev d1) (rev d2)
      /\ forall (fuel : nat) (a1 a2 : list ascii),
           (x + y <= fuel + 2)%nat ->
           traceback_loop fuel M seq1 seq2 a1 a2 (Z.of_nat x) (Z.of_nat y)
           = Ok (a1 ++ d1, a2 ++ d2, Z.of_nat xe, Z.of_nat ye).
Proof.
  induction s as [|s IH]; intros x y Hs Hx Hy; [lia|].
  destruct (next_move_created_Ok seq1 seq2 M M_cells x y Hx Hy) as (mv & Hmv & Hcond).
  destruct mv.
  - exists x, y, [], []. split; [lia|]. split; [lia|]. split.
    { rewrite !slice_empty. constructor. }
    intros fuel a1 a2 _. rewrite traceback_loop_eq, Hmv, !app_nil_r. reflexivity.
  - destruct Hcond as [Hx2 Hy2].
    destruct (lookup_lt_is_Some_2 seq1 (x - 1)) as [c1 Hc1]; [lia|].
    destruct (lookup_lt_is_Some_2 seq2 (y - 1)) as [c2 Hc2]; [lia|].
    destruct (IH (x - 1)%nat (y - 1)%nat) as (xe & ye & d1 & d2 & Hxe & Hye & Haln & Hrun);
      try lia.
    exists xe, ye, (c1 :: d1), (c2 :: d2). split; [lia|]. split; [lia|]. split.
    { replace x with (S (x - 1)) at 1 by lia. replace y with (S (y - 1)) at 1 by lia.
      rewrite (slice_snoc _ _ _ _ (proj2 Hxe) Hc1), (slice_snoc _ _ _ _ (proj2 Hye) Hc2).
      cbn [rev]. apply is_alignment_app; [assumption|repeat constructor]. }
    intros fuel a1 a2 Hfuel. destruct fuel as [|fuel]; [lia|].
    rewrite traceback_loop_eq, Hmv. cbn [bind].
    rewrite (getitem_pred _ _ _ (proj1 Hx) Hc1). cbn [bind].
    rewrite (getitem_pred _ _ _ (proj1 Hy) Hc2). cbn [bind].
    replace (Z.of_nat x - 1) with (Z.of_nat (x - 1)) by lia.
    replace (Z.of_nat y - 1) with (Z.of_nat (y - 1)) by lia.
    rewrite Hrun by lia. now rewrite <- !app_assoc.
  - destruct (lookup_lt_is_Some_2 seq1 (x - 1)) as [c1 Hc1]; [lia|].
    destruct (IH (x - 1)%nat y) as (xe & ye & d1 & d2 & Hxe & Hye & Haln & Hrun); try lia.
    exists xe, ye, (c1 :: d1), ("-"%char :: d2). split; [lia|]. split; [lia|]. split.
    { replace x with (S (x - 1)) at 1 by lia.
      rewrite (slice_snoc _ _ _ _ (proj2 Hxe) Hc1).
      rewrite <- (app_nil_r (slice seq2 ye y)).
      cbn [rev]. apply is_alignment_app; [assumption|repeat constructor]. }
    intros fuel a1 a2 Hfuel. destruct fuel as [|fuel]; [lia|].
    rewrite traceback_loop_eq, Hmv. cbn [bind].
    rewrite (getitem_pred _ _ _ (proj1 Hx) Hc1). cbn [bind].
    replace (Z.of_nat x - 1) with (Z.of_nat (x - 1)) by lia.
    rewrite Hrun by lia. now rewrite <- !app_assoc.
  - destruct (lookup_lt_is_Some_2 seq2 (y - 1)) as [c2 Hc2]; [lia|].
    destruct (IH x (y - 1)%nat) as (xe & ye & d1 & d2 & Hxe & Hye & Haln & Hrun); try lia.
    exists xe, ye, ("-"%char :: d1), (c2 :: d2). split; [lia|]. split; [lia|]. split.
    { replace y with (S (y - 1)) at 1 by lia.
      rewrite (slice_snoc _ _ _ _ (proj2 Hye) Hc2).
      rewrite <- (app_nil_r (slice seq1 xe x)).
      cbn [rev]. apply is_alignment_app; [assumption|repeat constructor]. }
    intros fuel a1 a2 Hfuel. destruct fuel as [|fuel]; [lia|].
    rewrite traceback_loop_eq, Hmv. cbn [bind].
    rewrite (getitem_pred _ _ _ (proj1 Hy) Hc2). cbn [bind].
    replace (Z.of_nat y - 1) with (Z.of_nat (y - 1)) by lia.
    rewrite Hrun by lia. now rewrite <- !app_assoc.
Qed.

Lemma traceback_alignment (x0 y0 : nat) :
  (1 <= x0 <= length seq1)%nat -> (1 <= y0 <= length seq2)%nat ->
  exists (xs ys : nat) (c1 c2 : ascii) (a1 a2 : list ascii),
    (xs < x0)%nat /\ (ys < y0)%nat
    /\ seq1 !! xs = Some c1 /\ seq2 !! ys = Some c2
    /\ is_alignment (slice seq1 (S xs) x0) (slice seq2 (S ys) y0) a1 a2
    /\ _traceback M (Z.of_nat x0, Z.of_nat y0) seq1 seq2 = Ok (c1 :: a1, c2 :: a2).
Proof.
  intros Hx Hy.
  destruct (traceback_loop_alignment (x0 + y0) x0 y0)
    as (xe & ye & d1 & d2 & Hxe & Hye & Haln & Hrun); try lia.
  destruct (lookup_lt_is_Some_2 seq1 (xe - 1)) as [c1 Hc1]; [lia|].
  destruct (lookup_lt_is_Some_2 seq2 (ye - 1)) as [c2 Hc2]; [lia|].
  exists (xe - 1)%nat, (ye - 1)%nat, c1, c2, (rev d1), (rev d2).
  replace (S (xe - 1)) with xe by lia. replace (S (ye - 1)) with ye by lia.
  repeat (split; [first [assumption|lia]|]).
  unfold _traceback. rewrite Hrun by (unfold traceback_fuel; lia). cbn [bind app].
  rewrite (getitem_pred _ _ _ (proj1 Hxe) Hc1). cbn [bind].
  rewrite (getitem_pred _ _ _ (proj1 Hye) Hc2). cbn [bind].
  now rewrite !rev_unit.
Qed.

End WalkAlignment.

(** The strings returned by [align] are an alignment of two slices
    seq1[xs:x0] and seq2[ys:y0]: column by column they spell the two
    slices, with either a symbol of each or a symbol and a gap; the first
    column holds the two symbols seq1[xs] and seq2[ys]. *)
Theorem align_is_alignment (seq1 seq2 : sequence) (a1 a2 : list ascii) (score : Z) :
  align seq1 seq2 = Ok (a1, a2, score) ->
  exists (xs x0 ys y0 : nat),
    (xs < x0 <= length seq1)%nat /\ (ys < y0 <= length seq2)%nat
    /\ is_alignment (slice seq1 xs x0) (slice seq2 ys y0) a1 a2
    /\ a1 !! 0%nat = seq1 !! xs /\ a2 !! 0%nat = seq2 !! ys.
Proof.
  intros Hok.
  destruct (align_outcome seq1 seq2)
    as [[Hal _]|(x0 & y0 & b1 & b2 & M & Hx & Hy & _ & _ & Hlk & Htb & Hal)];
    rewrite Hal in Hok; [discriminate|]. injection Hok as -> -> _.
  destruct (traceback_alignment seq1 seq2 M Hlk x0 y0 Hx Hy)
    as (xs & ys & c1 & c2 & d1 & d2 & Hxs & Hys & Hc1 & Hc2 & Haln & Htb').
  rewrite Htb in Htb'. injection Htb' as -> ->.
  exists xs, x0, ys, y0. split; [lia|]. split; [lia|]. split.
  - rewrite (slice_cons _ _ _ _ Hxs Hc1), (slice_cons _ _ _ _ Hys Hc2). now constructor.
  - simpl. auto.
Qed.

Lemma align_is_alignment_witness :
  align (seq_of "AAT") (seq_of "AT") = Ok (seq_of "AAT", seq_of "A-T", 4)
  /\ exists (xs x0 ys y0 : nat),
       (xs < x0 <= 3)%nat /\ (ys < y0 <= 2)%nat
       /\ is_alignment (slice (seq_of "AAT") xs x0) (slice (seq_of "AT") ys y0)
            (seq_of "AAT") (seq_of "A-T")
       /\ seq_of "AAT" !! 0%nat = seq_of "AAT" !! xs
       /\ seq_of "A-T" !! 0%nat = seq_of "AT" !! ys.
Proof.
  assert (Hal : align (seq_of "AAT") (seq_of "AT") = Ok (seq_of "AAT", seq_of "A-T", 4))
    by (vm_compute; reflexivity).
  split; [exact Hal|]. exact (align_is_alignment _ _ _ _ _ Hal).
Defined.

(** The aligned strings are not empty and hold fewer columns than the
    two sequences have symbols. *)
Theorem align_output_length (seq1 seq2 : sequence) (a1 a2 : list ascii) (score : Z) :
  align seq1 seq2 = Ok (a1, a2, score) ->
  (1 <= length a1 <= length seq1 + length seq2 - 1)%nat /\ length a2 = length a1.
Proof.
  intros Hok.
  destruct (align_outcome seq1 seq2)
    as [[Hal _]|(x0 & y0 & b1 & b2 & M & Hx & Hy & _ & _ & Hlk & Htb & Hal)];
    rewrite Hal in Hok; [discriminate|]. injection Hok as -> -> _.
  destruct (traceback_alignment seq1 seq2 M Hlk x0 y0 Hx Hy)
    as (xs & ys & c1 & c2 & d1 & d2 & Hxs & Hys & Hc1 & Hc2 & Haln & Htb').
  rewrite Htb in Htb'. injection Htb' as -> ->.
  apply is_alignment_lengths in Haln as (Hlen & _ & _ & Hle).
  unfold slice in Hle. rewrite !length_take, !length_drop in Hle.
  simpl. lia.
Qed.

Lemma align_output_length_witness :
  align (seq_of "AAT") (seq_of "AT") = Ok (seq_of "AAT", seq_of "A-T", 4)
  /\ (1 <= length (seq_of "AAT") <= 3 + 2 - 1)%nat.
Proof.
  assert (Hal : align (seq_of "AAT") (seq_of "AT") = Ok (seq_of "AAT", seq_of "A-T", 4))
    by (vm_compute; reflexivity).
  split; [exact Hal|]. exact (proj1 (align_output_length _ _ _ _ _ Hal)).
Defined.

(** For sequences that do not hold the gap symbol themselves: no column
    of the aligned strings holds two gaps, removing the gaps gives back
    slices of the two sequences, and [_alignment_string] marks the result
    by the rule that counts a gap whenever either symbol is '-'. *)
Theorem align_gap_free (seq1 seq2 : sequence) (a1 a2 : list ascii) (score : Z) :
  "-"%char ∉ seq1 -> "-"%char ∉ seq2 ->
  align seq1 seq2 = Ok (a1, a2, score) ->
  (forall i, ~ (a1 !! i = Some "-"%char /\ a2 !! i = Some "-"%char))
  /\ (exists xs x0 ys y0 : nat,
        filter (fun c => c <> "-"%char) a1 = slice seq1 xs x0
        /\ filter (fun c => c <> "-"%char) a2 = slice seq2 ys y0)
  /\ _alignment_string a1 a2 = alignment_string_spec a1 a2.
Proof.
  intros H1 H2 Hok.
  destruct (align_outcome seq1 seq2)
    as [[Hal _]|(x0 & y0 & b1 & b2 & M & Hx & Hy & _ & _ & Hlk & Htb & Hal)];
    rewrite Hal in Hok; [discriminate|]. injection Hok as -> -> _.
  destruct (traceback_alignment seq1 seq2 M Hlk x0 y0 Hx Hy)
    as (xs & ys & c1 & c2 & d1 & d2 & Hxs & Hys & Hc1 & Hc2 & Haln & Htb').
  rewrite Htb in Htb'. injection Htb' as -> ->.
  assert (Haln' : is_alignment (slice seq1 xs x0) (slice seq2 ys y0) (c1 :: d1) (c2 :: d2)).
  { rewrite (slice_cons _ _ _ _ Hxs Hc1), (slice_cons _ _ _ _ Hys Hc2). now constructor. }
  destruct (is_alignment_gap_free _ _ _ _ Haln') as (Hcol & Hf1 & Hf2).
  { intros Hin. apply H1. eapply slice_subseteq; eassumption. }
  { intros Hin. apply H2. eapply slice_subseteq; eassumption. }
  split; [|split].
  - intros i [Hi1 Hi2]. apply (Hcol ("-"%char, "-"%char)); [|auto].
    apply list_elem_of_lookup. exists i.
    rewrite lookup_zip_with, Hi1, Hi2. reflexivity.
  - exists xs, x0, ys, y0. auto.
  - unfold _alignment_string, alignment_string_spec. now apply render_fold_agrees.
Qed.

Lemma align_gap_free_witness :
  align (seq_of "AAT") (seq_of "AT") = Ok (seq_of "AAT", seq_of "A-T", 4)
  /\ _alignment_string (seq_of "AAT") (seq_of "A-T")
     = alignment_string_spec (seq_of "AAT") (seq_of "A-T").
Proof.
  assert (Hal : align (seq_of "AAT") (seq_of "AT") = Ok (seq_of "AAT", seq_of "A-T", 4))
    by (vm_compute; reflexivity).
  split; [exact Hal|].
  assert (H1 : "-"%char ∉ seq_of "AAT").
  { intros Hin. repeat (apply elem_of_cons in Hin as [Hin|Hin]; [discriminate|]).
    inversion Hin. }
  assert (H2 : "-"%char ∉ seq_of "AT").
  { intros Hin. repeat (apply elem_of_cons in Hin as [Hin|Hin]; [discriminate|]).
    inversion Hin. }
  exact (proj2 (proj2 (align_gap_free _ _ _ _ _ H1 H2 Hal))).
Defined.

(** ** The score is the best score of an alignment of two slices *)

Lemma slice_cons_inv {A} (l : list A) (i j : nat) (c : A) (t : list A) :
  (j <= length l)%nat -> c :: t = slice l i j ->
  (i < j)%nat /\ l !! i = Some c /\ t = slice l (S i) j.
Proof.
  intros Hj Heq.
  assert (Hij : (i < j)%nat).
  { destruct (decide (i < j)%nat) as [|Hge]; [assumption|exfalso].
    unfold slice in Heq. replace (j - i)%nat with 0%nat in Heq by lia. discriminate. }
  destruct (lookup_lt_is_Some_2 l i) as [c' Hc']; [lia|].
  rewrite (slice_cons _ _ _ _ Hij Hc') in Heq. injection Heq as -> ->. auto.
Qed.

Lemma slice_nil_inv {A} (l : list A) (i j : nat) :
  (j <= length l)%nat -> [] = slice l i j -> (j <= i)%nat.
Proof.
  intros Hj Heq. apply (f_equal length) in Heq.
  unfold slice in Heq. rewrite length_take, length_drop in Heq. simpl in Heq. lia.
Qed.

Lemma scored_alignment_eq (s1 s2 a1 a2 : list ascii) (v w : Z) :
  scored_alignment s1 s2 a1 a2 v -> v = w -> scored_alignment s1 s2 a1 a2 w.
Proof. now intros H <-. Qed.

Lemma scored_alignment_app (s1 s2 a1 a2 t1 t2 b1 b2 : list ascii) (v w : Z) :
  scored_alignment s1 s2 a1 a2 v -> scored_alignment t1 t2 b1 b2 w ->
  scored_alignment (s1 ++ t1) (s2 ++ t2) (a1 ++ b1) (a2 ++ b2) (v + w).
Proof.
  intros H1 H2. induction H1; simpl; [assumption|..];
    rewrite <- Z.add_assoc; now constructor.
Qed.

Lemma is_alignment_scored (s1 s2 a1 a2 : list ascii) :
  is_alignment s1 s2 a1 a2 -> exists v, scored_alignment s1 s2 a1 a2 v.
Proof.
  intros H. induction H as [|? ? ? ? ? ? _ [v IH]|? ? ? ? ? _ [v IH]|? ? ? ? ? _ [v IH]];
    eexists; constructor; eassumption.
Qed.

Section Optimal.

Variables seq1 seq2 : sequence.

Local Abbreviation cell := (cell seq1 seq2).

Lemma cell_diag_ge (i j : nat) : cell i j + similarity seq1 seq2 i j <= cell (S i) (S j).
Proof. rewrite cell_step. lia. Qed.

Lemma cell_up_ge (i j : nat) : cell i j + gap <= cell (S i) j.
Proof.
  destruct j as [|j]; [rewrite !cell_col0; unfold gap; lia|]. rewrite cell_step. lia.
Qed.

Lemma cell_left_ge (i j : nat) : cell i j + gap <= cell i (S j).
Proof.
  destruct i as [|i]; [rewrite !cell_row0; unfold gap; lia|]. rewrite cell_step. lia.
Qed.

(** An alignment of [seq1[i:x0]] with [seq2[j:y0]] lifts cell [(i, j)] to
    at most cell [(x0, y0)]. *)
Lemma scored_alignment_le (x0 y0 : nat) (s1 s2 b1 b2 : list ascii) (v : Z) :
  (x0 <= length seq1)%nat -> (y0 <= length seq2)%nat ->
  scored_alignment s1 s2 b1 b2 v ->
  forall i j, (i <= x0)%nat -> (j <= y0)%nat ->
    s1 = slice seq1 i x0 -> s2 = slice seq2 j y0 ->
    cell i j + v <= cell x0 y0.
Proof.
  intros Hx0 Hy0 H.
  induction H as [|c1 c2 s1 s2 a1 a2 v H IH|c1 s1 s2 a1 a2 v H IH|c2 s1 s2 a1 a2 v H IH];
    intros i j Hi Hj H1 H2.
  - apply slice_nil_inv in H1; [|assumption]. apply slice_nil_inv in H2; [|assumption].
    replace i with x0 by lia. replace j with y0 by lia. lia.
  - apply slice_cons_inv in H1 as (Hi' & Hc1 & ->); [|assumption].
    apply slice_cons_inv in H2 as (Hj' & Hc2 & ->); [|assumption].
    specialize (IH (S i) (S j) Hi' Hj' eq_refl eq_refl).
    pose proof (cell_diag_ge i j) as Hd.
    unfold similarity in Hd. rewrite Hc1, Hc2 in Hd. lia.
  - apply slice_cons_inv in H1 as (Hi' & Hc1 & ->); [|assumption].
    specialize (IH (S i) j Hi' Hj eq_refl H2).
    pose proof (cell_up_ge i j). lia.
  - apply slice_cons_inv in H2 as (Hj' & Hc2 & ->); [|assumption].
    specialize (IH i (S j) Hi Hj' H1 eq_refl).
    pose proof (cell_left_ge i j). lia.
Qed.

(** Every cell is the score of some alignment of two slices ending there. *)
Lemma cell_attained (i j : nat) :
  (i <= length seq1)%nat -> (j <= length seq2)%nat ->
  exists (xs ys : nat) (b1 b2 : list ascii),
    (xs <= i)%nat /\ (ys <= j)%nat
    /\ scored_alignment (slice seq1 xs i) (slice seq2 ys j) b1 b2 (cell i j).
Proof.
  revert j. induction i as [|i IHi]; intros j Hi Hj.
  { exists 0%nat, j, [], []. rewrite !slice_empty, cell_row0.
    split; [lia|]. split; [lia|constructor]. }
  induction j as [|j IHj].
  { exists (S i), 0%nat, [], []. rewrite !slice_empty, cell_col0.
    split; [lia|]. split; [lia|constructor]. }
  destruct (lookup_lt_is_Some_2 seq1 i) as [c1 Hc1]; [lia|].
  destruct (lookup_lt_is_Some_2 seq2 j) as [c2 Hc2]; [lia|].
  assert (Hcases : cell (S i) (S j) = 0
                   \/ cell (S i) (S j) = cell i j + similarity seq1 seq2 i j
                   \/ cell (S i) (S j) = cell i (S j) + gap
                   \/ cell (S i) (S j) = cell (S i) j + gap)
    by (rewrite cell_step; lia).
  destruct Hcases as [Hz|[Hd|[Hu|Hl]]].
  - exists (S i), (S j), [], []. rewrite !slice_empty, Hz.
    split; [lia|]. split; [lia|constructor].
  - destruct (IHi j) as (xs & ys & b1 & b2 & Hxs & Hys & Hsc); [lia|lia|].
    exists xs, ys, (b1 ++ [c1]), (b2 ++ [c2]). split; [lia|]. split; [lia|].
    rewrite (slice_snoc _ _ _ _ Hxs Hc1), (slice_snoc _ _ _ _ Hys Hc2).
    eapply scored_alignment_eq.
    + apply scored_alignment_app; [exact Hsc|]. apply sa_pair, sa_nil.
    + rewrite Hd. unfold similarity. rewrite Hc1, Hc2. lia.
  - destruct (IHi (S j)) as (xs & ys & b1 & b2 & Hxs & Hys & Hsc); [lia|lia|].
    exists xs, ys, (b1 ++ [c1]), (b2 ++ ["-"%char]). split; [lia|]. split; [lia|].
    rewrite (slice_snoc _ _ _ _ Hxs Hc1), <- (app_nil_r (slice seq2 ys (S j))).
    eapply scored_alignment_eq.
    + apply scored_alignment_app; [exact Hsc|]. apply sa_gap2, sa_nil.
    + rewrite Hu. lia.
  - destruct IHj as (xs & ys & b1 & b2 & Hxs & Hys & Hsc); [lia|].
    exists xs, ys, (b1 ++ ["-"%char]), (b2 ++ [c2]). split; [lia|]. split; [lia|].
    rewrite (slice_snoc _ _ _ _ Hys Hc2), <- (app_nil_r (slice seq1 xs (S i))).
    eapply scored_alignment_eq.
    + apply scored_alignment_app; [exact Hsc|]. apply sa_gap1, sa_nil.
    + rewrite Hl. lia.
Qed.

End Optimal.

(** The score returned by [align] is the best score of an alignment of a
    slice of seq1 with a slice of seq2, counting 2 for a match and -1 for
    a mismatch or a gap: no such alignment scores more, and one scores as
    much. *)
Theorem align_score_optimal (seq1 seq2 : sequence) (a1 a2 : list ascii) (score : Z) :
  align seq1 seq2 = Ok (a1, a2, score) ->
  (forall (xs x0 ys y0 : nat) (b1 b2 : list ascii) (v : Z),
      (xs <= x0 <= length seq1)%nat -> (ys <= y0 <= length seq2)%nat ->
      scored_alignment (slice seq1 xs x0) (slice seq2 ys y0) b1 b2 v ->
      v <= score)
  /\ exists (xs x0 ys y0 : nat) (b1 b2 : list ascii),
       (xs <= x0 <= length seq1)%nat /\ (ys <= y0 <= length seq2)%nat
       /\ scored_alignment (slice seq1 xs x0) (slice seq2 ys y0) b1 b2 score.
Proof.
  intros Hok.
  destruct (align_outcome seq1 seq2)
    as [[Hal _]|(x0 & y0 & c1 & c2 & M & Hx & Hy & _ & Hmaxi & _ & _ & Hal)];
    rewrite Hal in Hok; [discriminate|]. injection Hok as _ _ <-.
  split.
  - intros xs x1 ys y1 b1 b2 v Hxs Hys Hsc.
    pose proof (scored_alignment_le seq1 seq2 x1 y1 _ _ _ _ _ (proj2 Hxs) (proj2 Hys) Hsc
                  xs ys (proj1 Hxs) (proj1 Hys) eq_refl eq_refl) as Hle.
    pose proof (cell_nonneg seq1 seq2 xs ys).
    specialize (Hmaxi x1 y1). lia.
  - destruct (cell_attained seq1 seq2 x0 y0) as (xs & ys & b1 & b2 & Hxs & Hys & Hsc);
      [lia|lia|].
    exists xs, x0, ys, y0, b1, b2. split; [lia|]. split; [lia|exact Hsc].
Qed.

Lemma align_score_optimal_witness :
  align (seq_of "AAT") (seq_of "AT") = Ok (seq_of "AAT", seq_of "A-T", 4)
  /\ exists (xs x0 ys y0 : nat) (b1 b2 : list ascii),
       (xs <= x0 <= 3)%nat /\ (ys <= y0 <= 2)%nat
       /\ scored_alignment (slice (seq_of "AAT") xs x0) (slice (seq_of "AT") ys y0) b1 b2 4.
Proof.
  assert (Hal : align (seq_of "AAT") (seq_of "AT") = Ok (seq_of "AAT", seq_of "A-T", 4))
    by (vm_compute; reflexivity).
  split; [exact Hal|]. exact (proj2 (align_score_optimal _ _ _ _ _ Hal)).
Defined.

(** The strings returned by [align] are an alignment that scores at most
    the returned score, and they can score strictly less: for "AAT" and
    "AT" (the module's test_weird_case) the score is 4 and the strings
    AAT / A-T score 3 however their columns are read. *)
Theorem align_strings_may_score_less :
  (forall (seq1 seq2 : sequence) (a1 a2 : list ascii) (score : Z),
      align seq1 seq2 = Ok (a1, a2, score) ->
      exists (xs x0 ys y0 : nat) (v : Z),
        scored_alignment (slice seq1 xs x0) (slice seq2 ys y0) a1 a2 v /\ v <= score)
  /\ exists (seq1 seq2 : sequence) (a1 a2 : list ascii) (score : Z),
       align seq1 seq2 = Ok (a1, a2, score)
       /\ forall s1 s2 v, scored_alignment s1 s2 a1 a2 v -> v < score.
Proof.
  split.
  - intros seq1 seq2 a1 a2 score Hok.
    destruct (align_outcome seq1 seq2)
      as [[Hal _]|(x0 & y0 & b1 & b2 & M & Hx & Hy & _ & Hmaxi & Hlk & Htb & Hal)];
      rewrite Hal in Hok; [discriminate|]. injection Hok as -> -> <-.
    destruct (traceback_alignment seq1 seq2 M Hlk x0 y0 Hx Hy)
      as (xs & ys & c1 & c2 & d1 & d2 & Hxs & Hys & Hc1 & Hc2 & Haln & Htb').
    rewrite Htb in Htb'. injection Htb' as -> ->.
    assert (Haln' : is_alignment (slice seq1 xs x0) (slice seq2 ys y0) (c1 :: d1) (c2 :: d2)).
    { rewrite (slice_cons _ _ _ _ Hxs Hc1), (slice_cons _ _ _ _ Hys Hc2). now constructor. }
    apply is_alignment_scored in Haln' as (v & Hsc).
    exists xs, x0, ys, y0, v. split; [exact Hsc|].
    pose proof (scored_alignment_le seq1 seq2 x0 y0 _ _ _ _ _ (proj2 Hx) (proj2 Hy) Hsc
                  xs ys ltac:(lia) ltac:(lia) eq_refl eq_refl) as Hle.
    pose proof (cell_nonneg seq1 seq2 xs ys). lia.
  - exists (seq_of "AAT"), (seq_of "AT"), (seq_of "AAT"), (seq_of "A-T"), 4.
    split; [vm_compute; reflexivity|].
    intros s1 s2 v H. unfold seq_of in H. cbn [list_ascii_of_string] in H.
    repeat match goal with
      | H : scored_alignment _ _ (_ :: _) (_ :: _) _ |- _ => inversion H; clear H; subst
      | H : scored_alignment _ _ [] [] _ |- _ => inversion H; clear H; subst
      end; cbn; unfold match_score, mismatch, gap; lia.
Qed.

Lemma align_strings_may_score_less_witness :
  align (seq_of "TAG") (seq_of "GAG") = Ok (seq_of "AG", seq_of "AG", 4)
  /\ exists (xs x0 ys y0 : nat) (v : Z),
       scored_alignment (slice (seq_of "TAG") xs x0) (slice (seq_of "GAG") ys y0)
         (seq_of "AG") (seq_of "AG") v
       /\ v <= 4.
Proof.
  assert (Hal : align (seq_of "TAG") (seq_of "GAG") = Ok (seq_of "AG", seq_of "AG", 4))
    by (vm_compute; reflexivity).
  split; [exact Hal|]. exact (proj1 align_strings_may_score_less _ _ _ _ _ Hal).
Defined.

(** ** Edge cases of the two inner functions *)

Lemma for_each_unchanged {S} (l : list nat) (body : nat -> S -> result S) (s : S) :
  (forall i s0, body i s0 = Ok s0) -> for_each l body s = Ok s.
Proof.
  intros Hbody. induction l as [|i l IH]; [reflexivity|].
  simpl. now rewrite Hbody.
Qed.

(** With fewer than two rows or fewer than two columns no cell is filled
    and the assertion on [max_pos] fails, whatever the sequences. *)
Theorem create_score_matrix_degenerate (rows cols : Z) (seq1 seq2 : sequence) :
  rows <= 1 \/ cols <= 1 ->
  _create_score_matrix rows cols seq1 seq2
  = Raise (AssertionError "the x, y position with the highest score was not found").
Proof.
  intros [Hr|Hc]; unfold _create_score_matrix, fill_matrix.
  - unfold range at 1. replace (Z.to_nat rows - 1)%nat with 0%nat by lia. reflexivity.
  - rewrite for_each_unchanged; [reflexivity|].
    intros i st. unfold range. replace (Z.to_nat cols - 1)%nat with 0%nat by lia.
    reflexivity.
Qed.

Lemma create_score_matrix_degenerate_witness :
  _create_score_matrix 5 1 (seq_of "ACGT") (seq_of "ACGT")
  = Raise (AssertionError "the x, y position with the highest score was not found").
Proof. apply create_score_matrix_degenerate. right. lia. Defined.

Lemma traceback_loop_Raise (sm : matrix) (seq1 seq2 : sequence) :
  forall (fuel : nat) (a1 a2 : list ascii) (x y : Z) (e : exn),
    traceback_loop fuel sm seq1 seq2 a1 a2 x y = Raise e -> e = IndexError.
Proof.
  induction fuel as [|fuel IH]; intros a1 a2 x y e; rewrite traceback_loop_eq.
  all: destruct (_next_move sm x y) as [mv|e'|] eqn:Hmv; cbn [bind];
    [|intros [= <-]; eapply next_move_Raise; eassumption|discriminate].
  all: destruct mv; try discriminate.
  all: repeat match goal with
         | |- context [getitem ?l ?i] =>
             let E := fresh "E" in
             destruct (getitem l i) as [?|?|] eqn:E; cbn [bind];
             [|intros [= <-]; eapply getitem_Raise; eassumption|discriminate]
         end.
  all: try discriminate.
  all: apply IH.
Qed.

(** On any matrix, start position and sequences, [_traceback] either
    returns or raises IndexError: the two ValueError branches are dead. *)
Theorem traceback_raises_only_IndexError (sm : matrix) (start_pos : Z * Z)
    (seq1 seq2 : sequence) :
  (exists s1 s2, _traceback sm start_pos seq1 seq2 = Ok (s1, s2))
  \/ _traceback sm start_pos seq1 seq2 = Raise IndexError.
Proof.
  pose proof (traceback_never_out_of_fuel sm start_pos seq1 seq2) as Hfuel.
  unfold _traceback in *. destruct start_pos as [x y].
  destruct (traceback_loop _ sm seq1 seq2 [] [] x y) as [[[[a1 a2] xe] ye]|e|] eqn:H;
    cbn [bind] in *; [| |contradiction].
  - destruct (getitem seq1 (xe - 1)) as [c1|e1|] eqn:H1; cbn [bind] in *;
      [|right; now rewrite (getitem_Raise _ _ _ H1)|contradiction].
    destruct (getitem seq2 (ye - 1)) as [c2|e2|] eqn:H2; cbn [bind] in *;
      [left; eauto|right; now rewrite (getitem_Raise _ _ _ H2)|contradiction].
  - right. now rewrite (traceback_loop_Raise _ _ _ _ _ _ _ _ _ H).
Qed.

(** ** The alignment string of any two strings *)

(** [zip] stops at the shorter string: there are as many marks as the
    shorter string has symbols, and the three counts, none negative, add
    up to that number; the symbols beyond it play no part. *)
Theorem alignment_string_truncates (a1 a2 marks : list ascii) (idents gaps mismatches : Z) :
  _alignment_string a1 a2 = (marks, idents, gaps, mismatches) ->
  length marks = Nat.min (length a1) (length a2)
  /\ idents + gaps + mismatches = Z.of_nat (Nat.min (length a1) (length a2))
  /\ 0 <= idents /\ 0 <= gaps /\ 0 <= mismatches
  /\ _alignment_string (take (length a2) a1) (take (length a1) a2)
     = (marks, idents, gaps, mismatches).
Proof.
  intros Hrun.
  assert (Hz : zip (take (length a2) a1) (take (length a1) a2) = zip a1 a2).
  { clear. revert a2. induction a1 as [|c1 a1 IH]; intros [|c2 a2]; simpl; try reflexivity.
    f_equal. apply IH. }
  assert (Hlast : _alignment_string (take (length a2) a1) (take (length a1) a2)
                  = (marks, idents, gaps, mismatches)).
  { unfold _alignment_string. rewrite Hz. exact Hrun. }
  unfold _alignment_string in Hrun.
  rewrite render_fold in Hrun. cbn [app] in Hrun. rewrite !Z.add_0_l in Hrun.
  injection Hrun as <- <- <- <-.
  pose proof (marks_counted (zip a1 a2)) as Hsum.
  rewrite length_zip_with in Hsum.
  split; [now rewrite length_fmap, length_zip_with|]. split; [exact Hsum|].
  unfold occurrences. repeat (split; [lia|]). exact Hlast.
Qed.

Lemma alignment_string_truncates_witness :
  _alignment_string (seq_of "ACGT") (seq_of "A-") = (seq_of "| ", 1, 1, 0)
  /\ length (seq_of "| ") = Nat.min 4 2.
Proof.
  assert (Hrun : _alignment_string (seq_of "ACGT") (seq_of "A-") = (seq_of "| ", 1, 1, 0))
    by (vm_compute; reflexivity).
  split; [exact Hrun|]. exact (proj1 (alignment_string_truncates _ _ _ _ _ _ Hrun)).
Defined.

Lemma render_fold_same (s : list ascii) :
  forall (marks : list ascii) (idents gaps mismatches : Z),
    foldl render_step (marks, idents, gaps, mismatches) (zip s s)
    = (marks ++ replicate (length s) "|"%char, idents + Z.of_nat (length s),
       gaps, mismatches).
Proof.
  induction s as [|c s IH]; intros marks idents gaps mismatches.
  - simpl. now rewrite app_nil_r, Z.add_0_r.
  - cbn [zip_with foldl]. unfold render_step at 2. rewrite Ascii.eqb_refl, IH.
    cbn [length replicate]. rewrite <- app_assoc. cbn [app].
    replace (idents + Z.of_nat (S (length s))) with (idents + 1 + Z.of_nat (length s)) by lia.
    reflexivity.
Qed.

(** A string set against itself is all identities, gap symbols included:
    one '|' per symbol, no gap and no mismatch counted. *)
Theorem alignment_string_same (s : list ascii) :
  _alignment_string s s = (replicate (length s) "|"%char, Z.of_nat (length s), 0, 0).
Proof. unfold _alignment_string. now rewrite render_fold_same. Qed.

(** ** The printed report *)

Lemma range_step_60 (n : nat) :
  range_step 0 n 60 = (fun k => k * 60)%nat <$> seq 0 ((n + 59) / 60).
Proof. unfold range_step. now rewrite Nat.sub_0_r. Qed.

Lemma blocks_needed (n k : nat) : (k < (n + 59) / 60)%nat -> (k * 60 < n)%nat.
Proof.
  intros Hk. pose proof (Nat.Div0.mul_div_le (n + 59) 60). lia.
Qed.

Lemma blocks_cover (n : nat) : (n <= (n + 59) / 60 * 60)%nat.
Proof. pose proof (Nat.mul_succ_div_gt (n + 59) 60). lia. Qed.

(** Consecutive slices of width [b] put back together. *)
Lemma blocks_concat {A} (l : list A) (b c : nat) :
  concat ((fun i => slice l i (i + b)) <$> ((fun k => k * b)%nat <$> seq 0 c))
  = take (c * b) l.
Proof.
  induction c as [|c IH]; [reflexivity|].
  rewrite seq_S, !fmap_app, concat_app, IH. cbn [fmap list_fmap concat Nat.add].
  rewrite app_nil_r. unfold slice.
  replace (c * b + b - c * b)%nat with b by lia.
  rewrite take_take_drop. f_equal. lia.
Qed.

Lemma print_blocks_query (a1 a2 m : list ascii) (l : list nat) :
  concat (query_of <$> concat (print_block a1 a2 m <$> l))
  = concat ((fun i => slice a1 i (i + 60)) <$> l).
Proof.
  induction l as [|i l IH]; [reflexivity|].
  rewrite !fmap_cons. cbn [concat]. rewrite fmap_app, concat_app, IH.
  cbn [print_block fmap list_fmap query_of concat app]. now rewrite app_nil_r.
Qed.

Lemma print_blocks_sbjct (a1 a2 m : list ascii) (l : list nat) :
  concat (sbjct_of <$> concat (print_block a1 a2 m <$> l))
  = concat ((fun i => slice a2 i (i + 60)) <$> l).
Proof.
  induction l as [|i l IH]; [reflexivity|].
  rewrite !fmap_cons. cbn [concat]. rewrite fmap_app, concat_app, IH.
  cbn [print_block fmap list_fmap sbjct_of concat app]. now rewrite app_nil_r.
Qed.

Lemma print_blocks_marks (a1 a2 m : list ascii) (l : list nat) :
  concat (marks_of <$> concat (print_block a1 a2 m <$> l))
  = concat ((fun i => slice m i (i + 60)) <$> l).
Proof.
  induction l as [|i l IH]; [reflexivity|].
  rewrite !fmap_cons. cbn [concat]. rewrite fmap_app, concat_app, IH.
  cbn [print_block fmap list_fmap marks_of concat app]. now rewrite app_nil_r.
Qed.

Lemma print_blocks_length (a1 a2 m : list ascii) (l : list nat) :
  length (concat (print_block a1 a2 m <$> l)) = (4 * length l)%nat.
Proof.
  induction l as [|i l IH]; [reflexivity|].
  rewrite fmap_cons. cbn [concat]. rewrite length_app, IH. cbn [print_block length]. lia.
Qed.

Lemma print_blocks_in_range (a1 a2 m : list ascii) (l : list nat) :
  length a1 = length a2 ->
  Forall (fun i => (i < length a1)%nat /\ exists k, i = (k * 60)%nat) l ->
  Forall (line_in_range (length a1)) (concat (print_block a1 a2 m <$> l)).
Proof.
  intros Hlen Hl. induction Hl as [|i l [Hi [k ->]] _ IH]; [constructor|].
  rewrite fmap_cons. cbn [concat]. apply Forall_app. split; [|exact IH].
  unfold print_block, slice.
  constructor; [|constructor; [|constructor; [|constructor; [|constructor]]]];
    cbn [line_in_range]; rewrite ?length_take, ?length_drop;
    repeat split; try lia; exists k; lia.
Qed.

(** The divisions by [alength] fail exactly on an empty first string. *)
Theorem print_alignment_zero_division (a1 a2 : list ascii) :
  _print_alignment a1 a2 = ZeroDivisionError <-> a1 = [].
Proof.
  unfold _print_alignment.
  destruct (_alignment_string a1 a2) as [[[marks idents] gaps] mismatches].
  destruct a1 as [|c a1]; simpl; split; intros H; try reflexivity; discriminate.
Qed.

Lemma print_alignment_zero_division_witness :
  _print_alignment [] (seq_of "ACGT") = ZeroDivisionError.
Proof. apply (proj2 (print_alignment_zero_division [] (seq_of "ACGT"))). reflexivity. Defined.

(** Both strings of a result of [align] begin with a column of two
    symbols. *)
Lemma align_output_cons (seq1 seq2 : sequence) (a1 a2 : list ascii) (score : Z) :
  align seq1 seq2 = Ok (a1, a2, score) ->
  exists c1 d1 c2 d2, a1 = c1 :: d1 /\ a2 = c2 :: d2 /\ length d1 = length d2.
Proof.
  intros Hok.
  destruct (align_outcome seq1 seq2)
    as [[Hal _]|(x0 & y0 & b1 & b2 & M & Hx & Hy & _ & _ & Hlk & Htb & Hal)];
    rewrite Hal in Hok; [discriminate|]. injection Hok as -> -> _.
  destruct (traceback_alignment seq1 seq2 M Hlk x0 y0 Hx Hy)
    as (xs & ys & c1 & c2 & d1 & d2 & _ & _ & _ & _ & Haln & Htb').
  rewrite Htb in Htb'. injection Htb' as -> ->.
  exists c1, d1, c2, d2. split; [reflexivity|]. split; [reflexivity|].
  now apply is_alignment_lengths in Haln.
Qed.

(** For two strings of equal length, the first not empty, the report is
    the summary line followed by four lines per block of 60 columns; the
    Query, mark and Sbjct lines, put end to end, give back the two strings
    and the alignment string, and every Query and Sbjct line carries the
    1-based positions of its first and last symbol. *)
Theorem print_alignment_layout (a1 a2 marks : list ascii) (idents gaps mismatches : Z) :
  a1 <> [] -> length a1 = length a2 ->
  _alignment_string a1 a2 = (marks, idents, gaps, mismatches) ->
  exists blocks,
    _print_alignment a1 a2
    = Printed (SummaryLine idents (Z.of_nat (length a1)) gaps mismatches :: blocks)
    /\ concat (query_of <$> blocks) = a1
    /\ concat (marks_of <$> blocks) = marks
    /\ concat (sbjct_of <$> blocks) = a2
    /\ length blocks = (4 * ((length a1 + 59) / 60))%nat
    /\ Forall (line_in_range (length a1)) blocks.
Proof.
  intros Hne Hlen Hrun. unfold _print_alignment. rewrite Hrun.
  destruct (Nat.eqb_spec (length a1) 0) as [Hz|_]; [destruct a1; [congruence|discriminate]|].
  eexists. split; [reflexivity|].
  pose proof (blocks_cover (length a1)) as Hcover.
  assert (Hmarks : length marks = length a1).
  { unfold _alignment_string in Hrun. rewrite render_fold in Hrun.
    injection Hrun as <- _ _ _. cbn [app]. rewrite length_fmap, length_zip_with. lia. }
  rewrite print_blocks_query, print_blocks_marks, print_blocks_sbjct, print_blocks_length.
  rewrite range_step_60, !blocks_concat, length_fmap, length_seq.
  repeat (split; [first [apply take_ge; lia|reflexivity]|]).
  apply print_blocks_in_range; [assumption|].
  apply Forall_fmap, Forall_forall. intros k Hk.
  apply elem_of_seq in Hk. simpl. split; [apply blocks_needed; lia|eauto].
Qed.

Lemma print_alignment_layout_witness :
  exists blocks,
    _print_alignment (seq_of "AAT") (seq_of "A-T") = Printed (SummaryLine 2 3 1 0 :: blocks)
    /\ concat (query_of <$> blocks) = seq_of "AAT"
    /\ concat (marks_of <$> blocks) = seq_of "| |"
    /\ concat (sbjct_of <$> blocks) = seq_of "A-T"
    /\ length blocks = 4%nat.
Proof.
  destruct (print_alignment_layout (seq_of "AAT") (seq_of "A-T") (seq_of "| |") 2 1 0)
    as (blocks & Hp & Hq & Hm & Hs & Hn & _);
    [discriminate|reflexivity|vm_compute; reflexivity|].
  exists blocks. auto.
Defined.

(** Printing what [align] returned never divides by zero. *)
Theorem print_alignment_after_align (seq1 seq2 : sequence) (a1 a2 : list ascii) (score : Z) :
  align seq1 seq2 = Ok (a1, a2, score) ->
  exists lines, _print_alignment a1 a2 = Printed lines
                /\ length lines = (1 + 4 * ((length a1 + 59) / 60))%nat.
Proof.
  intros Hok.
  destruct (align_output_cons _ _ _ _ _ Hok) as (c1 & d1 & c2 & d2 & -> & -> & Hlen).
  unfold _print_alignment.
  destruct (_alignment_string (c1 :: d1) (c2 :: d2)) as [[[marks idents] gaps] mismatches].
  cbn [length Nat.eqb]. eexists. split; [reflexivity|].
  cbn [length]. now rewrite print_blocks_length, range_step_60, length_fmap, length_seq.
Qed.

Lemma print_alignment_after_align_witness :
  align (seq_of "AAT") (seq_of "AT") = Ok (seq_of "AAT", seq_of "A-T", 4)
  /\ exists lines, _print_alignment (seq_of "AAT") (seq_of "A-T") = Printed lines
                   /\ length lines = 5%nat.
Proof.
  assert (Hal : align (seq_of "AAT") (seq_of "AT") = Ok (seq_of "AAT", seq_of "A-T", 4))
    by (vm_compute; reflexivity).
  split; [exact Hal|]. exact (print_alignment_after_align _ _ _ _ _ Hal).
Defined.

(** ** Scores of a batch *)

Section Batch.

Variable fasta_dict : gmap string (list ascii).

Local Abbreviation scorable := (scorable fasta_dict).

Lemma pair_scores_unique (p : string * string) (v w : Z) :
  pair_scores fasta_dict p v -> pair_scores fasta_dict p w -> v = w.
Proof.
  intros (s0 & s1 & a1 & a2 & H0 & H1 & Hv) (t0 & t1 & b1 & b2 & H0' & H1' & Hw).
  rewrite H0 in H0'. rewrite H1 in H1'. injection H0' as <-. injection H1' as <-.
  rewrite Hv in Hw. now injection Hw.
Qed.

Lemma scorable_scores (p : string * string) :
  scorable p <-> exists score, pair_scores fasta_dict p score.
Proof.
  split.
  - intros (s0 & s1 & H0 & H1 & Hsh).
    apply align_shared_symbol_cases in Hsh as (a1 & a2 & score & Hal).
    exists score, s0, s1, a1, a2. auto.
  - intros (score & s0 & s1 & a1 & a2 & H0 & H1 & Hal).
    exists s0, s1. split; [assumption|]. split; [assumption|].
    apply align_shared_symbol_cases. eauto.
Qed.

(** One iteration of the loop on a pair that can be scored. *)
Lemma score_pairs_cons (read0 read1 : string) (rest : list (string * string))
    (d0 : gmap (string * string) Z) (score : Z) :
  pair_scores fasta_dict (read0, read1) score ->
  score_pairs fasta_dict ((read0, read1) :: rest) d0
  = score_pairs fasta_dict rest (<[(read0, read1) := score]> d0).
Proof.
  intros (s0 & s1 & a1 & a2 & H0 & H1 & Hal). cbn [fst snd] in *.
  cbn [score_pairs]. now rewrite H0, H1, Hal.
Qed.

(** The ways in which an iteration can go. *)
Lemma score_pairs_step (read0 read1 : string) (rest : list (string * string))
    (d0 : gmap (string * string) Z) :
  (exists score, pair_scores fasta_dict (read0, read1) score
                 /\ score_pairs fasta_dict ((read0, read1) :: rest) d0
                    = score_pairs fasta_dict rest (<[(read0, read1) := score]> d0))
  \/ (fasta_dict !! read0 = None
      /\ score_pairs fasta_dict ((read0, read1) :: rest) d0 = KeyError read0)
  \/ (is_Some (fasta_dict !! read0) /\ fasta_dict !! read1 = None
      /\ score_pairs fasta_dict ((read0, read1) :: rest) d0 = KeyError read1)
  \/ (exists seq0 seq1,
        fasta_dict !! read0 = Some seq0 /\ fasta_dict !! read1 = Some seq1
        /\ ~ share_symbol seq0 seq1
        /\ score_pairs fasta_dict ((read0, read1) :: rest) d0 = AlignRaised no_max_pos).
Proof.
  cbn [score_pairs].
  destruct (fasta_dict !! read0) as [s0|] eqn:H0; [|right; left; auto].
  destruct (fasta_dict !! read1) as [s1|] eqn:H1; [|right; right; left; eauto].
  destruct (align_shared_symbol_cases s0 s1) as (Hyes & Hno & _).
  destruct (align s0 s1) as [[[a1 a2] score]|e|] eqn:Hal.
  - left. exists score. split; [|reflexivity]. exists s0, s1, a1, a2. auto.
  - right; right; right. exists s0, s1.
    assert (Hn : ~ share_symbol s0 s1).
    { intros Hsh. apply Hyes in Hsh as (? & ? & ? & ?). discriminate. }
    split; [reflexivity|]. split; [reflexivity|]. split; [assumption|].
    apply Hno in Hn. injection Hn as ->. reflexivity.
  - exfalso. destruct (align_shared_symbol_cases s0 s1) as (_ & _ & _ & Hf). now apply Hf.
Qed.

Lemma score_pairs_Scores :
  forall (read_pairs : list (string * string)) (d0 d : gmap (string * string) Z),
    score_pairs fasta_dict read_pairs d0 = Scores d ->
    Forall scorable read_pairs
    /\ (forall p, p ∈ read_pairs -> exists score, d !! p = Some score
                                           /\ pair_scores fasta_dict p score)
    /\ (forall p, p ∉ read_pairs -> d !! p = d0 !! p).
Proof.
  induction read_pairs as [|[read0 read1] rest IH]; intros d0 d Hrun.
  - injection Hrun as <-. split; [apply Forall_nil_2|].
    split; [intros p Hp; inversion Hp|reflexivity].
  - destruct (score_pairs_step read0 read1 rest d0)
      as [(score & Hsc & Heq)|[(_ & Heq)|[(_ & _ & Heq)|(? & ? & _ & _ & _ & Heq)]]];
      rewrite Heq in Hrun; try discriminate.
    destruct (IH _ _ Hrun) as (Hall & Hin & Hout). split; [|split].
    + constructor; [|assumption]. apply scorable_scores. eauto.
    + intros p Hp.
      destruct (decide (p ∈ rest)) as [Hrest|Hrest]; [now apply Hin|].
      apply elem_of_cons in Hp as [->|Hp]; [|contradiction].
      exists score. split; [|assumption].
      rewrite (Hout _ Hrest). apply lookup_insert_eq.
    + intros p Hp. apply not_elem_of_cons in Hp as [Hne Hrest].
      rewrite (Hout _ Hrest). now apply lookup_insert_ne.
Qed.

(** Pairs that can be scored are passed over, each leaving its entry. *)
Lemma score_pairs_prefix (pre : list (string * string)) :
  Forall scorable pre ->
  forall d0, exists d1, forall rest,
    score_pairs fasta_dict (pre ++ rest) d0 = score_pairs fasta_dict rest d1.
Proof.
  intros Hpre. induction Hpre as [|[read0 read1] pre Hp _ IH]; intros d0.
  - exists d0. reflexivity.
  - apply scorable_scores in Hp as (score & Hsc).
    destruct (IH (<[(read0, read1) := score]> d0)) as (d1 & Hd1).
    exists d1. intros rest. cbn [app]. now rewrite (score_pairs_cons _ _ _ _ _ Hsc).
Qed.


End Batch.

(** When [get_alignment_scores] returns, the dictionary holds exactly the
    pairs of [read_pairs], each with the score [align] gives for the two
    sequences found under its two names; a pair and its mirror image are
    different keys. *)
Theorem get_alignment_scores_dictionary (read_pairs : list (string * string))
    (fasta_dict : gmap string (list ascii)) (d : gmap (string * string) Z) :
  get_alignment_scores read_pairs fasta_dict = Scores d ->
  forall p score,
    d !! p = Some score <-> p ∈ read_pairs /\ pair_scores fasta_dict p score.
Proof.
  intros Hrun p score. unfold get_alignment_scores in Hrun.
  destruct (score_pairs_Scores _ _ _ _ Hrun) as (_ & Hin & Hout). split.
  - intros Hd. destruct (decide (p ∈ read_pairs)) as [Hp|Hp].
    + destruct (Hin p Hp) as (score' & Hd' & Hsc). rewrite Hd in Hd'.
      injection Hd' as <-. auto.
    + rewrite (Hout p Hp), lookup_empty in Hd. discriminate.
  - intros [Hp Hsc]. destruct (Hin p Hp) as (score' & Hd' & Hsc').
    now rewrite (pair_scores_unique _ _ _ _ Hsc Hsc').
Qed.

Lemma get_alignment_scores_dictionary_witness :
  get_alignment_scores [("r0", "r1")%string]
    (<["r0"%string := seq_of "TAG"]> (<["r1"%string := seq_of "GAG"]> ∅))
  = Scores (<[("r0", "r1")%string := 4]> ∅)
  /\ pair_scores (<["r0"%string := seq_of "TAG"]> (<["r1"%string := seq_of "GAG"]> ∅))
       ("r0", "r1")%string 4.
Proof.
  assert (Hrun : get_alignment_scores [("r0", "r1")%string]
                   (<["r0"%string := seq_of "TAG"]> (<["r1"%string := seq_of "GAG"]> ∅))
                 = Scores (<[("r0", "r1")%string := 4]> ∅))
    by (vm_compute; reflexivity).
  split; [exact Hrun|].
  apply (proj1 (get_alignment_scores_dictionary _ _ _ Hrun ("r0", "r1")%string 4)).
  apply lookup_insert_eq.
Defined.

(** [get_alignment_scores] returns a dictionary exactly when every pair
    names two reads of the dictionary whose sequences hold a common
    symbol. *)
Theorem get_alignment_scores_returns (read_pairs : list (string * string))
    (fasta_dict : gmap string (list ascii)) :
  Forall (scorable fasta_dict) read_pairs
  <-> exists d, get_alignment_scores read_pairs fasta_dict = Scores d.
Proof.
  unfold get_alignment_scores. split.
  - intros Hall. destruct (score_pairs_prefix fasta_dict read_pairs Hall ∅) as (d1 & Hd1).
    exists d1. specialize (Hd1 []). now rewrite app_nil_r in Hd1.
  - intros (d & Hrun). now apply score_pairs_Scores in Hrun.
Qed.

Lemma get_alignment_scores_returns_witness :
  exists d,
    get_alignment_scores [("r0", "r1")%string]
      (<["r0"%string := seq_of "TAG"]> (<["r1"%string := seq_of "GAG"]> ∅))
    = Scores d.
Proof.
  apply (proj1 (get_alignment_scores_returns _ _)).
  constructor; [|constructor].
  exists (seq_of "TAG"), (seq_of "GAG").
  split; [reflexivity|]. split; [reflexivity|].
  exists 1%nat, 1%nat, "A"%char. split; reflexivity.
Defined.

(** The first pair that cannot be scored decides the outcome, and the
    scores computed before it are lost: a KeyError for its first name if
    it is missing, else for its second name if that one is missing, else
    the AssertionError of [align] on two sequences without common
    symbol. *)
Theorem get_alignment_scores_first_failure (pre post : list (string * string))
    (read0 read1 : string) (fasta_dict : gmap string (list ascii)) :
  Forall (scorable fasta_dict) pre ->
  (fasta_dict !! read0 = None ->
   get_alignment_scores (pre ++ (read0, read1) :: post) fasta_dict = KeyError read0)
  /\ (is_Some (fasta_dict !! read0) -> fasta_dict !! read1 = None ->
      get_alignment_scores (pre ++ (read0, read1) :: post) fasta_dict = KeyError read1)
  /\ (forall seq0 seq1,
        fasta_dict !! read0 = Some seq0 -> fasta_dict !! read1 = Some seq1 ->
        ~ share_symbol seq0 seq1 ->
        get_alignment_scores (pre ++ (read0, read1) :: post) fasta_dict
        = AlignRaised
            (AssertionError "the x, y position with the highest score was not found")).
Proof.
  intros Hpre. unfold get_alignment_scores.
  destruct (score_pairs_prefix fasta_dict pre Hpre ∅) as (d1 & Hd1). rewrite Hd1.
  destruct (score_pairs_step fasta_dict read0 read1 post d1)
    as [(score & Hsc & _)|[(H0 & Heq)|[(H0 & H1 & Heq)|(s0 & s1 & H0 & H1 & Hn & Heq)]]].
  - destruct Hsc as (s0 & s1 & a1 & a2 & H0 & H1 & Hal). cbn [fst snd] in *.
    split; [|split].
    + intros Hnone. rewrite Hnone in H0. discriminate.
    + intros _ Hnone. rewrite Hnone in H1. discriminate.
    + intros t0 t1 H0' H1' Hn. rewrite H0 in H0'. rewrite H1 in H1'.
      injection H0' as <-. injection H1' as <-. exfalso. apply Hn.
      apply align_shared_symbol_cases. eauto.
  - split; [|split].
    + intros _. exact Heq.
    + intros [s0 Hs0]. rewrite H0 in Hs0. discriminate.
    + intros t0 t1 H0'. rewrite H0 in H0'. discriminate.
  - split; [|split].
    + intros Hnone. destruct H0 as [s0 Hs0]. rewrite Hnone in Hs0. discriminate.
    + intros _ _. exact Heq.
    + intros t0 t1 _ H1'. rewrite H1 in H1'. discriminate.
  - split; [|split].
    + intros Hnone. rewrite Hnone in H0. discriminate.
    + intros _ Hnone. rewrite Hnone in H1. discriminate.
    + intros _ _ _ _ _. exact Heq.
Qed.

Lemma get_alignment_scores_first_failure_witness :
  get_alignment_scores [("r0", "r1"); ("r0", "r2"); ("r1", "r0")]%string
    (<["r0"%string := seq_of "TAG"]> (<["r1"%string := seq_of "GAG"]> ∅))
  = KeyError "r2".
Proof.
  assert (Hpre : Forall (scorable (<["r0"%string := seq_of "TAG"]>
                                     (<["r1"%string := seq_of "GAG"]> ∅)))
                   [("r0", "r1")%string]).
  { constructor; [|constructor].
    exists (seq_of "TAG"), (seq_of "GAG").
    split; [reflexivity|]. split; [reflexivity|].
    exists 1%nat, 1%nat, "A"%char. split; reflexivity. }
  apply (proj1 (proj2 (get_alignment_scores_first_failure
                         [("r0", "r1")%string] [("r1", "r0")%string] "r0" "r2" _ Hpre))).
  - eexists. reflexivity.
  - reflexivity.
Defined.


